(** * The Kubernetes pipeline engine of drone-runner-kube

    A shallow embedding of [engine/engine_impl.go]: the provisioning
    ([Setup]), readiness wait ([waitFor], [waitForReady]), remote execution
    ([start], [Run]) and teardown ([Destroy]) of one pipeline step.

    The engine is a sequence of calls to the orchestration platform.  Each
    Go method is a computation in a state monad over a [World]: the remote
    cluster, the caller's output writer and a journal of the calls made so
    far with the answers they got.  What the platform answers is left to a
    [Kubernetes] handle (the [client] and [config] fields of the Go struct),
    so that every statement holds whatever the platform does. *)

From Stdlib Require Import ZArith Ascii String List Lia.
From stdpp Require Import base option list strings gmap fin_maps.

Local Open Scope Z_scope.
Local Open Scope string_scope.
Local Open Scope list_scope.

Set Warnings "-register-all".

(** ** Errors

    A Go [error] is an interface value; [nil] is [None] of [option error].
    The constructors are the dynamic types the engine can meet. *)

Inductive error : Type :=
| StatusError (reason name : string)      (* API machinery status error *)
| CodeExitError (Err : string) (Code : Z) (* k8s.io/client-go/util/exec *)
| ErrWatchClosed                          (* watchtools.ErrWatchClosed *)
| ErrWaitTimeout                          (* wait.ErrWaitTimeout *)
| ErrCacheSync                            (* UntilWithSync: unable to sync caches *)
| TransportError (msg : string)           (* dial, attach, stream failures *)
| MultiError (Errors : list error).       (* * multierror.Error *)

Module multierror.

(** [multierror.Append err e]: the accumulated error becomes a combined
    error; combined errors on either side are flattened. *)
Definition Append (err : option error) (e : error) : error :=
  let held :=
    match err with
    | None => []
    | Some (MultiError es) => es
    | Some x => [x]
    end in
  let added :=
    match e with
    | MultiError es => es
    | _ => [e]
    end in
  MultiError (held ++ added).

End multierror.

Module exec.

(** The type assertion [err.(exec.CodeExitError)] with [ExitStatus]. *)
Definition ExitStatus (err : error) : option Z :=
  match err with
  | CodeExitError _ code => Some code
  | _ => None
  end.

End exec.

(** ** API objects *)

Module metav1.

Record ObjectMeta := { Name : string; Namespace : string }.

Record DeleteOptions := { GracePeriodSeconds : option Z }.

(** [&metav1.DeleteOptions{}] *)
Definition noOptions : DeleteOptions := {| GracePeriodSeconds := None |}.

End metav1.

Module v1.

(** [PodPhase] is a string type in the API. *)
Definition PodPhase := string.
Definition PodPending : PodPhase := "Pending".
Definition PodRunning : PodPhase := "Running".
Definition PodSucceeded : PodPhase := "Succeeded".
Definition PodFailed : PodPhase := "Failed".
Definition PodUnknown : PodPhase := "Unknown".

Record Pod := { ObjectMeta : metav1.ObjectMeta; Phase : PodPhase }.

Record Secret := { SecretMeta : metav1.ObjectMeta;
                   Type_ : string;
                   StringData : list (string * string) }.

End v1.

(** A [runtime.Object]: what a create call sends and a watch event carries. *)
Inductive Object : Type :=
| PodObject (pod : v1.Pod)
| SecretObject (secret : v1.Secret)
| StatusObject (message : string).

Module watch.

Inductive EventType := Added | Modified | Deleted | Bookmark | Error.

Record Event := { Type_ : EventType; Object_ : Object }.

End watch.

(** ** The engine's own data *)

Module PodSpec.
Record t := mk { Name : string; Namespace : string }.
End PodSpec.

Module Secret.
Record t := mk { Name : string; Data : string }.
End Secret.

Record Spec := {
  PodSpec : PodSpec.t;
  PullSecret : option Secret.t;      (* a pointer: nil when absent *)
  Secrets : list Secret.t
}.

Record Step := { ID : string }.

Record State := { Exited : bool; ExitCode : Z; OOMKilled : bool }.

(** Modelled from the spec: the resource descriptor builders
    [toDockerConfigSecret], [toSecret] and [toPod] are not part of the
    engine file.  The spec has them turn a Spec into the descriptors of the
    pull-credential secret, the environment secret and the workload pod;
    the environment secret and the pod carry the workload name, the
    pull-credential secret the name of the pull-credential reference.
    [toDockerConfigSecret] is only called on a Spec that has one. *)
Definition toDockerConfigSecret (spec : Spec) : Object :=
  match PullSecret spec with
  | Some ps =>
      SecretObject
        {| v1.SecretMeta := {| metav1.Name := Secret.Name ps;
                               metav1.Namespace := "" |};
           v1.Type_ := "kubernetes.io/dockerconfigjson";
           v1.StringData := [(".dockerconfigjson", Secret.Data ps)] |}
  | None => StatusObject "no pull secret"
  end.

Definition toSecret (spec : Spec) : Object :=
  SecretObject
    {| v1.SecretMeta := {| metav1.Name := PodSpec.Name (PodSpec spec);
                           metav1.Namespace := "" |};
       v1.Type_ := "Opaque";
       v1.StringData :=
         map (fun s => (Secret.Name s, Secret.Data s)) (Secrets spec) |}.

Definition toPod (spec : Spec) : Object :=
  PodObject
    {| v1.ObjectMeta := {| metav1.Name := PodSpec.Name (PodSpec spec);
                           metav1.Namespace := PodSpec.Namespace (PodSpec spec) |};
       v1.Phase := "" |}.

(** ** The platform

    The capabilities the engine consumes: create and delete an object, list
    and watch pods under a label selector, attach to a container. *)

Inductive Resource := SecretsResource | ConfigMapsResource | PodsResource.

(** [cache.Store], read through [Get] only: the object, whether it exists,
    and the error of the lookup. *)
Record Store := { Get : metav1.ObjectMeta -> option Object * bool * option error }.

(** How a watch ends when no event is accepted: the caller's context is
    done, or the result channel is closed. *)
Inductive StreamEnd := ContextDone | ChannelClosed.

(** What an informer built on a list-watch delivers: whether the initial
    list reached the cache before the context was done, the cache after
    that list, then the events of the watch in order and how it ends. *)
Record Feed := {
  synced : bool;
  store : Store;
  events : list watch.Event;
  ending : StreamEnd
}.

Inductive Fd := Stdout | Stderr.

(** The exec sub-resource request of [start]. *)
Record ExecRequest := {
  execName : string;
  execNamespace : string;
  Container : string;
  Command : list string;
  wantStdout : bool;
  wantStderr : bool
}.

(** The answer of an exec stream: the chunks the remote process wrote, in
    the order they arrive, and the error the stream call returns. *)
Record Exec := { chunks : list (Fd * string); exit : option error }.

Record Clientset (Cluster : Type) := {
  Create : Resource -> string -> Object -> Cluster -> option error * Cluster;
  Delete : Resource -> string -> string -> metav1.DeleteOptions ->
           Cluster -> option error * Cluster;
  ListWatch : string -> string -> Cluster -> Feed;
  Stream : ExecRequest -> Cluster -> Exec
}.
Arguments Create {Cluster}.
Arguments Delete {Cluster}.
Arguments ListWatch {Cluster}.
Arguments Stream {Cluster}.

(** [rest.Config]: building the SPDY round tripper from it fails or not. *)
Record Config := { roundTripper : option error }.

(** [type Kubernetes struct { client; config }] *)
Record Kubernetes := {
  Cluster : Type;
  client : Clientset Cluster;
  config : Config
}.

(** ** The journal of calls *)

Inductive Call : Type :=
| CreateCall (r : Resource) (ns : string) (o : Object)
| DeleteCall (r : Resource) (ns name : string) (opts : metav1.DeleteOptions)
| ListWatchCall (ns label : string)
| ReceiveCall (e : watch.Event)
| NewExecutorCall (req : ExecRequest)
| StreamCall (req : ExecRequest)
| FlushCall (fd : Fd).

Record Entry := { call : Call; answer : option error }.

Definition isCreate (c : Call) : bool :=
  match c with CreateCall _ _ _ => true | _ => false end.

Definition isReceive (c : Call) : bool :=
  match c with ReceiveCall _ => true | _ => false end.

Definition isExec (c : Call) : bool :=
  match c with NewExecutorCall _ | StreamCall _ => true | _ => false end.

(** ** The world and its monad *)

Record World (k : Kubernetes) := {
  remote : Cluster k;       (* the platform's object store *)
  output : string;          (* what reached the caller's io.Writer *)
  journal : list Entry      (* calls made so far, oldest first *)
}.
Arguments remote {k}.
Arguments output {k}.
Arguments journal {k}.

Definition M (k : Kubernetes) (A : Type) : Type := World k -> A * World k.

Section Monad.

Context {k : Kubernetes}.

Definition ret {A} (a : A) : M k A := fun w => (a, w).

Definition bind {A B} (m : M k A) (f : A -> M k B) : M k B :=
  fun w => let (a, w') := m w in f a w'.

(** Append one entry to the journal. *)
Definition note (c : Call) (r : option error) : M k unit :=
  fun w => (tt, {| remote := remote w; output := output w;
                   journal := journal w ++ [{| call := c; answer := r |}] |}).

(** Run a request against the remote cluster. *)
Definition request (f : Cluster k -> option error * Cluster k) : M k (option error) :=
  fun w => let (err, c) := f (remote w) in
           (err, {| remote := c; output := output w; journal := journal w |}).

(** Write to the caller's writer. *)
Definition emit (s : string) : M k unit :=
  fun w => (tt, {| remote := remote w; output := output w +:+ s;
                   journal := journal w |}).

End Monad.

Notation "'let*' x ':=' c 'in' f" := (bind c (fun x => f))
  (at level 10, x name, c at level 100, f at level 200, only parsing).

(** ** Provisioning and teardown *)

Section Lifecycle.

Variable k : Kubernetes.

(** [k.client.CoreV1().<Resource>(ns).Create(obj)] *)
Definition createObject (r : Resource) (ns : string) (o : Object)
  : M k (option error) :=
  let* err := request (Create (client k) r ns o) in
  let* _ := note (CreateCall r ns o) err in
  ret err.

(** [k.client.CoreV1().<Resource>(ns).Delete(name, opts)] *)
Definition deleteObject (r : Resource) (ns name : string)
           (opts : metav1.DeleteOptions) : M k (option error) :=
  let* err := request (Delete (client k) r ns name opts) in
  let* _ := note (DeleteCall r ns name opts) err in
  ret err.

(** Setup the pipeline environment.  The context argument is unused. *)
Definition Setup (spec : Spec) : M k (option error) :=
  let* err :=
    match PullSecret spec with
    | Some _ =>
        createObject SecretsResource (PodSpec.Namespace (PodSpec spec))
                     (toDockerConfigSecret spec)
    | None => ret None
    end in
  match err with
  | Some e => ret (Some e)
  | None =>
      let* err := createObject SecretsResource
                    (PodSpec.Namespace (PodSpec spec)) (toSecret spec) in
      match err with
      | Some e => ret (Some e)
      | None =>
          let* err := createObject PodsResource
                        (PodSpec.Namespace (PodSpec spec)) (toPod spec) in
          match err with
          | Some e => ret (Some e)
          | None => ret None
          end
      end
  end.

(** [if err != nil { result = multierror.Append(result, err) }] *)
Definition collect (result err : option error) : option error :=
  match err with
  | Some e => Some (multierror.Append result e)
  | None => result
  end.

(** Destroy the pipeline environment.  The context argument is unused. *)
Definition Destroy (spec : Spec) : M k (option error) :=
  let result : option error := None in
  let* result :=
    match PullSecret spec with
    | Some ps =>
        let* err := deleteObject SecretsResource
                      (PodSpec.Namespace (PodSpec spec)) (Secret.Name ps)
                      metav1.noOptions in
        ret (collect result err)
    | None => ret result
    end in
  let* err := deleteObject SecretsResource
                (PodSpec.Namespace (PodSpec spec))
                (PodSpec.Name (PodSpec spec)) metav1.noOptions in
  let result := collect result err in
  let* err := deleteObject ConfigMapsResource
                (PodSpec.Namespace (PodSpec spec))
                (PodSpec.Name (PodSpec spec)) metav1.noOptions in
  let result := collect result err in
  let* err := deleteObject PodsResource
                (PodSpec.Namespace (PodSpec spec))
                (PodSpec.Name (PodSpec spec))
                {| metav1.GracePeriodSeconds := Some 0 |} in
  let result := collect result err in
  ret result.

End Lifecycle.

(** ** Waiting on a watch: client-go's [watchtools] *)

Module watchtools.
Section Until.

Context {k : Kubernetes}.

Definition ConditionFunc := watch.Event -> bool * option error.
Definition PreconditionFunc := Store -> bool * option error.

(** The informer of [UntilWithSync] lists and watches through [lw]. *)
Definition informer (ns label : string) : M k Feed :=
  fun w => (ListWatch (client k) ns label (remote w),
            {| remote := remote w; output := output w;
               journal := journal w ++
                 [{| call := ListWatchCall ns label; answer := None |}] |}).

(** [UntilWithoutRetry] with one condition: take events off the channel
    until the condition accepts one or fails; a closed channel gives
    [ErrWatchClosed] and a finished context [ErrWaitTimeout]. *)
Fixpoint UntilWithoutRetry (ch : list watch.Event) (fin : StreamEnd)
         (lastEvent : option watch.Event) (condition : ConditionFunc)
  : M k (option watch.Event * option error) :=
  match ch with
  | [] =>
      match fin with
      | ChannelClosed => ret (lastEvent, Some ErrWatchClosed)
      | ContextDone => ret (lastEvent, Some ErrWaitTimeout)
      end
  | event :: ch' =>
      let* _ := note (ReceiveCall event) None in
      match condition event with
      | (_, Some err) => ret (Some event, Some err)
      | (true, None) => ret (Some event, None)
      | (false, None) => UntilWithoutRetry ch' fin (Some event) condition
      end
  end.

(** [UntilWithSync]: with a precondition, wait for the cache to sync and
    run the precondition on it; its error is returned, its [true] ends
    the wait with no event and no error; otherwise the watch is read. *)
Definition UntilWithSync (lw : M k Feed) (precondition : option PreconditionFunc)
           (condition : ConditionFunc)
  : M k (option watch.Event * option error) :=
  let* feed := lw in
  match precondition with
  | Some pre =>
      if negb (synced feed) then ret (None, Some ErrCacheSync)
      else
        match pre (store feed) with
        | (_, Some err) => ret (None, Some err)
        | (true, None) => ret (None, None)
        | (false, None) =>
            UntilWithoutRetry (events feed) (ending feed) None condition
        end
  | None => UntilWithoutRetry (events feed) (ending feed) None condition
  end.

End Until.
End watchtools.

(** ** Line-buffered output *)

Module nicelog.
Section Writer.

Context {k : Kubernetes}.

(** Modelled from the spec: the [nicelog] package is not part of the
    engine file.  The spec has each sink buffer by line before delivering
    its content: partial lines are held until a terminating newline or an
    explicit flush.  [sink] tells the two writers apart in the journal. *)
Record Writer := { sink : Fd; pending : string }.

Definition New (fd : Fd) : Writer := {| sink := fd; pending := "" |}.

Definition newline : ascii := Ascii.ascii_of_nat 10.

(** The complete lines at the head of [s] and the partial line after
    them. *)
Fixpoint lines (s : string) : string * string :=
  match s with
  | EmptyString => (EmptyString, EmptyString)
  | String c s' =>
      let (full, rest) := lines s' in
      match full with
      | EmptyString =>
          if Ascii.eqb c newline then (String c EmptyString, rest)
          else (EmptyString, String c rest)
      | _ => (String c full, rest)
      end
  end.

Definition Write (w : Writer) (p : string) : M k Writer :=
  let (full, rest) := lines (pending w +:+ p) in
  let* _ := emit full in
  ret {| sink := sink w; pending := rest |}.

Definition Flush (w : Writer) : M k Writer :=
  let* _ := emit (pending w) in
  let* _ := note (FlushCall (sink w)) None in
  ret {| sink := sink w; pending := "" |}.

End Writer.
End nicelog.

(** ** Attaching to the container: client-go's [remotecommand] *)

Module remotecommand.
Section Executor.

Context {k : Kubernetes}.

(** [NewSPDYExecutor]: fails when the round tripper cannot be built from
    the configuration; nothing is sent to the platform yet. *)
Definition NewSPDYExecutor (cfg : Config) (req : ExecRequest)
  : M k (option error) :=
  let err := roundTripper cfg in
  let* _ := note (NewExecutorCall req) err in
  ret err.

(** Copy the remote process's chunks into the two writers. *)
Fixpoint copy (cs : list (Fd * string)) (out err : nicelog.Writer)
  : M k (nicelog.Writer * nicelog.Writer) :=
  match cs with
  | [] => ret (out, err)
  | (Stdout, p) :: cs' =>
      let* out' := nicelog.Write out p in copy cs' out' err
  | (Stderr, p) :: cs' =>
      let* err' := nicelog.Write err p in copy cs' out err'
  end.

(** [executor.Stream(StreamOptions{Stdout, Stderr})]: blocks until the
    remote process exits or the stream fails. *)
Definition Stream (req : ExecRequest) (out err : nicelog.Writer)
  : M k (nicelog.Writer * nicelog.Writer * option error) :=
  fun w =>
    let x := Stream (client k) req (remote w) in
    (let* ws := copy (chunks x) out err in
     let* _ := note (StreamCall req) (exit x) in
     ret (ws, exit x)) w.

End Executor.
End remotecommand.

(** ** Readiness and execution *)

Section Run.

Variable k : Kubernetes.

(** The precondition of [waitFor]: end the wait when the lookup fails or
    the workload is not in the store. *)
Definition preconditionFunc (spec : Spec) (store : Store) : bool * option error :=
  let '(_, exists_, err) :=
    Get store {| metav1.Namespace := PodSpec.Namespace (PodSpec spec);
                 metav1.Name := PodSpec.Name (PodSpec spec) |} in
  match err with
  | Some e => (true, Some e)
  | None => if negb exists_ then (true, err) else (false, None)
  end.

Definition waitFor (spec : Spec) (conditionFunc : watch.Event -> bool * option error)
  : M k (option error) :=
  let label := "io.drone.name=" +:+ PodSpec.Name (PodSpec spec) in
  let lw := watchtools.informer (PodSpec.Namespace (PodSpec spec)) label in
  let* r := watchtools.UntilWithSync lw (Some (preconditionFunc spec))
                                     conditionFunc in
  ret (snd r).

(** The condition of [waitForReady]. *)
Definition readyCondition (spec : Spec) (e : watch.Event) : bool * option error :=
  match watch.Type_ e with
  | watch.Added | watch.Modified =>
      match watch.Object_ e with
      | PodObject pod =>
          if negb (String.eqb (metav1.Name (v1.ObjectMeta pod))
                              (PodSpec.Name (PodSpec spec)))
          then (false, None)
          else if String.eqb (v1.Phase pod) v1.PodRunning
               then (true, None)
               else (false, None)
      | _ => (false, None)
      end
  | _ => (false, None)
  end.

Definition waitForReady (spec : Spec) (step : Step) : M k (option error) :=
  waitFor spec (readyCondition spec).

Definition quote : string := String (Ascii.ascii_of_nat 34) EmptyString.

(** The request built by [start]: the exec sub-resource of the workload
    pod, in the step's container, running the script of the environment. *)
Definition execRequest (spec : Spec) (step : Step) : ExecRequest :=
  {| execName := PodSpec.Name (PodSpec spec);
     execNamespace := PodSpec.Namespace (PodSpec spec);
     Container := ID step;
     Command := ["sh"; "-c";
                 "echo " +:+ quote +:+ "$DRONE_SCRIPT" +:+ quote +:+ " | sh"];
     wantStdout := true;
     wantStderr := true |}.

Definition start (spec : Spec) (step : Step) : M k (option State * option error) :=
  let stdoutOutput := nicelog.New Stdout in
  let stderrOutput := nicelog.New Stderr in
  let req := execRequest spec step in
  let* err := remotecommand.NewSPDYExecutor (config k) req in
  match err with
  | Some e => ret (None, Some e)
  | None =>
      let state := {| Exited := true; ExitCode := 0; OOMKilled := false |} in
      let* r := remotecommand.Stream req stdoutOutput stderrOutput in
      let '(stdoutOutput, stderrOutput, err) := r in
      let* _ := nicelog.Flush stdoutOutput in
      let* _ := nicelog.Flush stderrOutput in
      match err with
      | Some e =>
          match exec.ExitStatus e with
          | None => ret (None, Some e)
          | Some code =>
              ret (Some {| Exited := Exited state; ExitCode := code;
                           OOMKilled := OOMKilled state |}, None)
          end
      | None => ret (Some state, None)
      end
  end.

(** Run runs the pipeline step. *)
Definition Run (spec : Spec) (step : Step) : M k (option State * option error) :=
  let* err := waitForReady spec step in
  match err with
  | Some e => ret (None, Some e)
  | None => start spec step
  end.

End Run.

(** ** A platform that keeps its objects

    The platform as the spec describes it for provisioning and teardown:
    an object store keyed by resource, namespace and name; creating an
    object that exists fails, and so does deleting one that is gone. *)

Module Platform.

#[global] Instance Resource_eq_dec : EqDecision Resource.
Proof. solve_decision. Defined.

#[global] Instance Resource_countable : Countable Resource.
Proof.
  refine (inj_countable'
            (fun r => match r with
                      | SecretsResource => 0%nat
                      | ConfigMapsResource => 1%nat
                      | PodsResource => 2%nat
                      end)
            (fun n => match n with
                      | O => SecretsResource
                      | S O => ConfigMapsResource
                      | _ => PodsResource
                      end) _).
  intros []; reflexivity.
Defined.

Definition Key : Type := Resource * string * string.

Definition objectName (o : Object) : string :=
  match o with
  | PodObject pod => metav1.Name (v1.ObjectMeta pod)
  | SecretObject s => metav1.Name (v1.SecretMeta s)
  | StatusObject _ => ""
  end.

Definition create (r : Resource) (ns : string) (o : Object)
           (c : gmap Key Object) : option error * gmap Key Object :=
  match c !! (r, ns, objectName o) with
  | Some _ => (Some (StatusError "AlreadyExists" (objectName o)), c)
  | None => (None, <[(r, ns, objectName o) := o]> c)
  end.

Definition delete (r : Resource) (ns name : string)
           (opts : metav1.DeleteOptions)
           (c : gmap Key Object) : option error * gmap Key Object :=
  match c !! (r, ns, name) with
  | Some _ => (None, base.delete (r, ns, name) c)
  | None => (Some (StatusError "NotFound" name), c)
  end.

(** The handle on such a store; what a watch and an exec stream deliver
    is given. *)
Definition kube (feed : Feed) (x : Exec) (cfg : Config) : Kubernetes :=
  {| Cluster := gmap Key Object;
     client := {| Create := create; Delete := delete;
                  ListWatch := fun _ _ _ => feed;
                  Stream := fun _ _ => x |};
     config := cfg |}.

End Platform.

(** ** Reading the journal *)

(** The entries added between two worlds. *)
Definition since {k : Kubernetes} (w w' : World k) : list Entry :=
  drop (length (journal w)) (journal w').

(** What a call does to the cluster. *)
Definition perform (k : Kubernetes) (s : Cluster k) (c : Call) : Cluster k :=
  match c with
  | CreateCall r ns o => snd (Create (client k) r ns o s)
  | DeleteCall r ns name opts => snd (Delete (client k) r ns name opts s)
  | _ => s
  end.

Definition replay (k : Kubernetes) (cs : list Call) (s : Cluster k) : Cluster k :=
  fold_left (perform k) cs s.

Definition succeeded (x : Entry) : Prop := answer x = None.

(** What the platform answers to a call in a given cluster. *)
Definition reply (k : Kubernetes) (s : Cluster k) (c : Call) : option error :=
  match c with
  | CreateCall r ns o => fst (Create (client k) r ns o s)
  | DeleteCall r ns name opts => fst (Delete (client k) r ns name opts s)
  | NewExecutorCall _ => roundTripper (config k)
  | StreamCall req => exit (Stream (client k) req s)
  | _ => None
  end.

(** A journal is truthful from a cluster when each answer it holds is the
    one the platform gave, the calls being made one after the other. *)
Fixpoint truthful (k : Kubernetes) (s : Cluster k) (t : list Entry) : Prop :=
  match t with
  | [] => True
  | x :: t' => answer x = reply k s (call x) /\
               truthful k (perform k s (call x)) t'
  end.

(** The truthful journal of a list of calls made from a cluster. *)
Fixpoint conduct (k : Kubernetes) (s : Cluster k) (cs : list Call) : list Entry :=
  match cs with
  | [] => []
  | c :: cs' => {| call := c; answer := reply k s c |} ::
                conduct k (perform k s c) cs'
  end.

(** The label selector and the cache key of the workload. *)
Definition selector (spec : Spec) : string :=
  "io.drone.name=" +:+ PodSpec.Name (PodSpec spec).

Definition workloadKey (spec : Spec) : metav1.ObjectMeta :=
  {| metav1.Namespace := PodSpec.Namespace (PodSpec spec);
     metav1.Name := PodSpec.Name (PodSpec spec) |}.

(** Journal entries of the readiness wait. *)
Definition received (e : watch.Event) : Entry :=
  {| call := ReceiveCall e; answer := None |}.

Definition listed (spec : Spec) : Entry :=
  {| call := ListWatchCall (PodSpec.Namespace (PodSpec spec)) (selector spec);
     answer := None |}.

(** The world after more calls were noted. *)
Definition noted {k : Kubernetes} (w : World k) (t : list Entry) : World k :=
  {| remote := remote w; output := output w; journal := journal w ++ t |}.

(** The creations of Setup as the spec lists them: the pull-credential
    secret when there is one, the environment secret, the workload pod,
    each in the namespace of the Spec. *)
Definition provisioning (spec : Spec) : list Call :=
  let ns := PodSpec.Namespace (PodSpec spec) in
  match PullSecret spec with
  | Some _ => [CreateCall SecretsResource ns (toDockerConfigSecret spec)]
  | None => []
  end ++
  [CreateCall SecretsResource ns (toSecret spec);
   CreateCall PodsResource ns (toPod spec)].

(** The deletions of Destroy as the spec lists them: pull-credential
    secret when there is one, environment secret, config object, workload
    pod; only the pod's deletion sets a grace period, of zero seconds. *)
Definition teardown (spec : Spec) : list Call :=
  let ns := PodSpec.Namespace (PodSpec spec) in
  let name := PodSpec.Name (PodSpec spec) in
  match PullSecret spec with
  | Some ps => [DeleteCall SecretsResource ns (Secret.Name ps) metav1.noOptions]
  | None => []
  end ++
  [DeleteCall SecretsResource ns name metav1.noOptions;
   DeleteCall ConfigMapsResource ns name metav1.noOptions;
   DeleteCall PodsResource ns name {| metav1.GracePeriodSeconds := Some 0 |}].

(** The individual failures held by an error. *)
Definition parts (e : error) : list error :=
  match e with
  | MultiError es => es
  | _ => [e]
  end.

(** The combined error of a list of failures: nil when there is none. *)
Definition combined (es : list error) : option error :=
  match es with
  | [] => None
  | _ => Some (MultiError (flat_map parts es))
  end.

(** The failures among the answers of a journal, in order. *)
Definition failures (t : list Entry) : list error := omap answer t.

(** The objects a journal created, and those it asked to delete. *)
Definition createdKeys (t : list Entry) : list Platform.Key :=
  flat_map (fun x => match call x, answer x with
                     | CreateCall r ns o, None => [(r, ns, Platform.objectName o)]
                     | _, _ => []
                     end) t.

Definition deletionKeys (t : list Entry) : list Platform.Key :=
  flat_map (fun x => match call x with
                     | DeleteCall r ns name _ => [(r, ns, name)]
                     | _ => []
                     end) t.

(** The readiness condition in the spec's words: an add-or-modify event
    for a pod of the workload's name whose phase is running. *)
Definition accepted (spec : Spec) (e : watch.Event) : Prop :=
  (watch.Type_ e = watch.Added \/ watch.Type_ e = watch.Modified) /\
  exists pod, watch.Object_ e = PodObject pod /\
              metav1.Name (v1.ObjectMeta pod) = PodSpec.Name (PodSpec spec) /\
              v1.Phase pod = v1.PodRunning.

(** The error a wait ends with when no event was accepted. *)
Definition endError (fin : StreamEnd) : error :=
  match fin with
  | ContextDone => ErrWaitTimeout
  | ChannelClosed => ErrWatchClosed
  end.

(** The feed the readiness wait of a Spec is given in a world. *)
Definition feedOf {k : Kubernetes} (spec : Spec) (w : World k) : Feed :=
  ListWatch (client k) (PodSpec.Namespace (PodSpec spec)) (selector spec)
            (remote w).

(** The exec answer the step is given in a world. *)
Definition execOf {k : Kubernetes} (spec : Spec) (step : Step) (w : World k) : Exec :=
  Stream (client k) (execRequest spec step) (remote w).

(** The number of bytes the remote process wrote. *)
Definition written (cs : list (Fd * string)) : nat :=
  fold_right (fun c n => (String.length (snd c) + n)%nat) 0%nat cs.

(** The outcome of [start] for an answer of the stream call. *)
Definition outcome (err : option error) : option State * option error :=
  match err with
  | None => (Some {| Exited := true; ExitCode := 0; OOMKilled := false |}, None)
  | Some e =>
      match exec.ExitStatus e with
      | Some code =>
          (Some {| Exited := true; ExitCode := code; OOMKilled := false |}, None)
      | None => (None, Some e)
      end
  end.

(** The journal of a [start] that reached the stream call. *)
Definition attached (spec : Spec) (step : Step) (err : option error) : list Entry :=
  [{| call := NewExecutorCall (execRequest spec step); answer := None |};
   {| call := StreamCall (execRequest spec step); answer := err |};
   {| call := FlushCall Stdout; answer := None |};
   {| call := FlushCall Stderr; answer := None |}].

(** ** The scenario of the spec

    Workload [build-abc123] in namespace [drone], step [step0], on an empty
    store; the pod goes from pending to running and the process exits 0. *)

Module Scenario.

Definition spec : Spec :=
  {| PodSpec := PodSpec.mk "build-abc123" "drone";
     PullSecret := None;
     Secrets := [Secret.mk "token" "s3cr3t"] |}.

Definition step : Step := {| ID := "step0" |}.

Definition pod (phase : v1.PodPhase) : Object :=
  PodObject {| v1.ObjectMeta := {| metav1.Name := "build-abc123";
                                   metav1.Namespace := "drone" |};
               v1.Phase := phase |}.

(** A store holding the listed objects under their names. *)
Definition storeOf (names : list string) : Store :=
  {| Get := fun key =>
       if bool_decide (metav1.Name key ∈ names)
       then (Some (pod v1.PodPending), true, None)
       else (None, false, None) |}.

Definition feed : Feed :=
  {| synced := true;
     store := storeOf ["build-abc123"];
     events := [ {| watch.Type_ := watch.Added; watch.Object_ := pod v1.PodPending |};
                 {| watch.Type_ := watch.Modified; watch.Object_ := pod v1.PodRunning |} ];
     ending := ContextDone |}.

Definition exited0 : Exec :=
  {| chunks := [(Stdout, "hello"); (Stderr, "warn")]; exit := None |}.

Definition K : Kubernetes :=
  Platform.kube feed exited0 {| roundTripper := None |}.

Definition w0 : World K := {| remote := ∅; output := ""; journal := [] |}.

(** The same workload with a pull credential. *)
Definition specPull : Spec :=
  {| PodSpec := PodSpec.mk "build-abc123" "drone";
     PullSecret := Some (Secret.mk "regcred" "{}");
     Secrets := [] |}.

(** The pod was deleted before the wait started. *)
Definition feedGone : Feed :=
  {| synced := true;
     store := storeOf [];
     events := [ {| watch.Type_ := watch.Modified; watch.Object_ := pod v1.PodRunning |} ];
     ending := ContextDone |}.

(** The pod fails without ever running, then the caller gives up. *)
Definition feedFailed : Feed :=
  {| synced := true;
     store := storeOf ["build-abc123"];
     events := [ {| watch.Type_ := watch.Added; watch.Object_ := pod v1.PodPending |};
                 {| watch.Type_ := watch.Modified; watch.Object_ := pod v1.PodFailed |};
                 {| watch.Type_ := watch.Deleted; watch.Object_ := pod v1.PodRunning |} ];
     ending := ContextDone |}.

(** The remote process is killed: exit status 137. *)
Definition exited137 : Exec :=
  {| chunks := [(Stdout, "partial")];
     exit := Some (CodeExitError "command terminated with exit code 137" 137) |}.

(** The round tripper cannot be built from the configuration. *)
Definition badConfig : Config :=
  {| roundTripper := Some (TransportError "unable to load root certificates") |}.

End Scenario.

(** ** Two sentences of the spec as they are stated *)

(** The creation and deletion symmetry in the spec's words, on a platform
    that keeps its objects: after a successful Setup, Destroy deletes
    exactly the objects Setup created, none of them remains, and Destroy
    returns nil. *)
Definition SetupDestroySymmetry (feed : Feed) (x : Exec) (cfg : Config)
           (spec : Spec) (w : World (Platform.kube feed x cfg)) : Prop :=
  let K := Platform.kube feed x cfg in
  let w1 := snd (Setup K spec w) in
  let w2 := snd (Destroy K spec w1) in
  fst (Setup K spec w) = None ->
  deletionKeys (since w1 w2) ≡ₚ createdKeys (since w w1) /\
  (forall key, key ∈ createdKeys (since w w1) ->
               (remote w2 : gmap Platform.Key Object) !! key = None) /\
  fst (Destroy K spec w1) = None.

(** Every exit path of [start] flushes both sinks, as the spec words it. *)
Definition FlushedOnEveryPath (k : Kubernetes) (spec : Spec) (step : Step)
           (w : World k) : Prop :=
  let t := since w (snd (start k spec step w)) in
  {| call := FlushCall Stdout; answer := None |} ∈ t /\
  {| call := FlushCall Stderr; answer := None |} ∈ t.

(** ** Further cases *)

Module Cases.

(** The context is done before the initial list reaches the cache. *)
Definition feedUnsynced : Feed :=
  {| synced := false;
     store := Scenario.storeOf [];
     events := [ {| watch.Type_ := watch.Modified;
                    watch.Object_ := Scenario.pod v1.PodRunning |} ];
     ending := ContextDone |}.

(** The lookup in the cache fails. *)
Definition feedBroken : Feed :=
  {| synced := true;
     store := {| Get := fun _ => (None, false, Some (TransportError "bad key")) |};
     events := [ {| watch.Type_ := watch.Modified;
                    watch.Object_ := Scenario.pod v1.PodRunning |} ];
     ending := ContextDone |}.

(** A condition that fails on deleted events and accepts nothing. *)
Definition failOnDeleted (e : watch.Event) : bool * option error :=
  match watch.Type_ e with
  | watch.Deleted => (false, Some (TransportError "pod deleted"))
  | _ => (false, None)
  end.

(** The remote process writes to its standard output only. *)
Definition stdoutOnly : Exec :=
  {| chunks := [(Stdout, "a" +:+ String nicelog.newline "b"); (Stdout, "c")];
     exit := None |}.

(** A handle on an empty store. *)
Definition on (feed : Feed) (x : Exec) : Kubernetes :=
  Platform.kube feed x {| roundTripper := None |}.

Definition empty (feed : Feed) (x : Exec) : World (on feed x) :=
  {| remote := ∅; output := ""; journal := [] |}.

End Cases.

(** The keys of the creations and of the deletions among a list of calls. *)
Definition creationTargets (cs : list Call) : list Platform.Key :=
  flat_map (fun c => match c with
                     | CreateCall r ns o => [(r, ns, Platform.objectName o)]
                     | _ => []
                     end) cs.

Definition deletionTargets (cs : list Call) : list Platform.Key :=
  flat_map (fun c => match c with
                     | DeleteCall r ns name _ => [(r, ns, name)]
                     | _ => []
                     end) cs.

(** Everything the remote process wrote, in the order it arrived. *)
Definition joined (cs : list (Fd * string)) : string :=
  fold_right (fun c s => snd c +:+ s) "" cs.

(** The name of the first object Setup creates. *)
Definition firstName (spec : Spec) : string :=
  match PullSecret spec with
  | Some ps => Secret.Name ps
  | None => PodSpec.Name (PodSpec spec)
  end.

(** One stream of the remote process: the bytes written to it, in order. *)
Fixpoint streamOf (fd : Fd) (cs : list (Fd * string)) : string :=
  match cs with
  | [] => ""
  | (fd', p) :: cs' =>
      match fd, fd' with
      | Stdout, Stdout | Stderr, Stderr => p +:+ streamOf fd cs'
      | _, _ => streamOf fd cs'
      end
  end.

(** [Interleaved a b s]: [s] holds every byte of [a] and every byte of
    [b] and nothing else, the bytes of each in their order. *)
Inductive Interleaved : string -> string -> string -> Prop :=
| Interleaved_nil : Interleaved "" "" ""
| Interleaved_fst (c : ascii) (a b s : string) :
    Interleaved a b s -> Interleaved (String c a) b (String c s)
| Interleaved_snd (c : ascii) (a b s : string) :
    Interleaved a b s -> Interleaved a (String c b) (String c s).

(** * Properties *)

Lemma since_app {k : Kubernetes} (w w' : World k) (t : list Entry) :
  journal w' = journal w ++ t -> since w w' = t.
Proof.
  intros H. unfold since. rewrite H. apply drop_app_length.
Qed.

(** Bring a journal built by successive notes into the form [j ++ t]. *)
Ltac journal_normal :=
  cbn [journal remote output fst snd];
  repeat rewrite <- app_assoc; cbn [app].

Section LifecycleFacts.

Variable k : Kubernetes.

Lemma createObject_run r ns o (w : World k) :
  createObject k r ns o w =
    (fst (Create (client k) r ns o (remote w)),
     {| remote := snd (Create (client k) r ns o (remote w));
        output := output w;
        journal := journal w ++
          [{| call := CreateCall r ns o;
              answer := fst (Create (client k) r ns o (remote w)) |}] |}).
Proof.
  unfold createObject, bind, request, note, ret.
  destruct (Create (client k) r ns o (remote w)); reflexivity.
Qed.

Lemma deleteObject_run r ns name opts (w : World k) :
  deleteObject k r ns name opts w =
    (fst (Delete (client k) r ns name opts (remote w)),
     {| remote := snd (Delete (client k) r ns name opts (remote w));
        output := output w;
        journal := journal w ++
          [{| call := DeleteCall r ns name opts;
              answer := fst (Delete (client k) r ns name opts (remote w)) |}] |}).
Proof.
  unfold deleteObject, bind, request, note, ret.
  destruct (Delete (client k) r ns name opts (remote w)); reflexivity.
Qed.

End LifecycleFacts.

(** *** Provisioning *)

Lemma truthful_conduct (k : Kubernetes) (t : list Entry) (s : Cluster k) :
  truthful k s t -> t = conduct k s (map call t).
Proof.
  revert s. induction t as [|[c a] t IH]; intros s; cbn; [reflexivity|].
  intros [-> Ht]. f_equal. now apply IH.
Qed.

Lemma Setup_journal (k : Kubernetes) (spec : Spec) (w : World k) :
  exists t,
    journal (snd (Setup k spec w)) = journal w ++ t /\
    truthful k (remote w) t /\
    remote (snd (Setup k spec w)) = replay k (map call t) (remote w) /\
    Forall (fun x => isCreate (call x) = true) t /\
    map call t = take (length t) (provisioning spec) /\
    Forall succeeded (removelast t) /\
    match fst (Setup k spec w) with
    | None => length t = length (provisioning spec) /\ Forall succeeded t
    | Some e => answer <$> last t = Some (Some e)
    end.
Proof.
  unfold Setup, provisioning, bind, ret.
  destruct (PullSecret spec) as [ps|];
    repeat (rewrite createObject_run; cbn [fst snd remote output journal];
            match goal with
            | |- context [fst (Create ?c ?r ?ns ?o ?s)] =>
                let a := fresh "a" in
                destruct (fst (Create c r ns o s)) as [?|] eqn:a
            end);
    journal_normal; eexists; (split; [reflexivity|]);
    cbn [truthful call answer perform reply map replay fold_left app
         length take removelast last fmap option_fmap option_map];
    unfold succeeded;
    repeat match goal with H : fst _ = _ |- _ => rewrite H end;
    split_and!; repeat constructor.
Qed.

(** C1. Setup creates, in this order, the pull-credential secret (only
    when the Spec has one), the environment secret and the workload pod,
    each in the namespace of the Spec: the calls made are always a prefix of
    that list.  The first creation the platform refuses ends Setup: its
    error is returned, nothing further is created, and Setup issues no
    deletion, so the cluster is left with what the accepted creations
    made. *)
Theorem Setup_creates_in_order_and_aborts (k : Kubernetes) (spec : Spec) (w : World k) :
  let r := fst (Setup k spec w) in
  let w' := snd (Setup k spec w) in
  let t := since w w' in
  journal w' = journal w ++ t /\
  truthful k (remote w) t /\
  remote w' = replay k (map call t) (remote w) /\
  Forall (fun x => isCreate (call x) = true) t /\
  map call t = take (length t) (provisioning spec) /\
  Forall succeeded (removelast t) /\
  match r with
  | None => length t = length (provisioning spec) /\ Forall succeeded t
  | Some e => answer <$> last t = Some (Some e)
  end.
Proof.
  cbv zeta. destruct (Setup_journal k spec w) as (t & Hj & H).
  rewrite (since_app _ _ _ Hj). tauto.
Qed.

(** *** Teardown *)

Lemma collect_fold_multi (answers : list (option error)) (held : list error) :
  fold_left collect answers (Some (MultiError held)) =
    Some (MultiError (held ++ flat_map parts (omap id answers))).
Proof.
  revert held. induction answers as [|[e|] answers IH]; intros held; cbn.
  - now rewrite app_nil_r.
  - unfold multierror.Append. fold (parts e). rewrite IH. now rewrite <- app_assoc.
  - apply IH.
Qed.

Lemma collect_fold (answers : list (option error)) :
  fold_left collect answers None = combined (omap id answers).
Proof.
  induction answers as [|[e|] answers IH]; cbn.
  - reflexivity.
  - unfold multierror.Append. fold (parts e). cbn [app]. apply collect_fold_multi.
  - exact IH.
Qed.

Lemma failures_answers (t : list Entry) : omap id (map answer t) = failures t.
Proof.
  unfold failures. induction t as [|x t IH]; cbn; [reflexivity|].
  rewrite IH. now destruct (answer x).
Qed.

Lemma combined_failures (t : list Entry) :
  combined (failures t) <> None <-> Exists (fun x => answer x <> None) t.
Proof.
  unfold failures. induction t as [|x t IH]; cbn.
  - split; [congruence | intros H; inversion H].
  - destruct (answer x) as [e|] eqn:Hx.
    + split; [intros _ | intros _; cbn; congruence].
      apply Exists_cons_hd. congruence.
    + rewrite IH. split; [apply Exists_cons_tl|].
      intros H. inversion H; subst; [congruence | assumption].
Qed.

Lemma Destroy_journal (k : Kubernetes) (spec : Spec) (w : World k) :
  exists t,
    journal (snd (Destroy k spec w)) = journal w ++ t /\
    truthful k (remote w) t /\
    remote (snd (Destroy k spec w)) = replay k (map call t) (remote w) /\
    map call t = teardown spec /\
    fst (Destroy k spec w) = fold_left collect (map answer t) None.
Proof.
  unfold Destroy, teardown, bind, ret.
  destruct (PullSecret spec) as [ps|];
    unfold bind, ret; repeat rewrite deleteObject_run;
    journal_normal; eexists; (split; [reflexivity|]);
    cbn [truthful call answer perform reply map replay fold_left app];
    split_and!; reflexivity.
Qed.

(** C2. Destroy attempts every deletion whatever the earlier ones
    answered: the journal holds the whole teardown list.  Each failure is
    appended to the combined error, and the error returned is non-nil if
    and only if at least one deletion call returned an error. *)
Theorem Destroy_attempts_all_and_combines (k : Kubernetes) (spec : Spec) (w : World k) :
  let r := fst (Destroy k spec w) in
  let t := since w (snd (Destroy k spec w)) in
  truthful k (remote w) t /\
  map call t = teardown spec /\
  r = fold_left collect (map answer t) None /\
  r = combined (failures t) /\
  (r <> None <-> Exists (fun x => answer x <> None) t).
Proof.
  cbv zeta. destruct (Destroy_journal k spec w) as (t & Hj & Ht & _ & Hc & Hr).
  rewrite (since_app _ _ _ Hj), Hr.
  rewrite collect_fold, failures_answers.
  split_and!; try done. apply combined_failures.
Qed.

(** C3. Destroy issues its deletions in the fixed order pull-credential
    secret (only when the Spec has one), environment secret, config
    object, workload pod, all in the namespace of the Spec; the pod's
    deletion asks for a grace period of zero seconds and the others leave
    the grace period to the platform.  The requests are the ones the
    platform receives: the journal holds the platform's own answers to
    them, and the cluster Destroy leaves is the one these requests, sent
    in that order with these options, make of the cluster it found. *)
Theorem Destroy_order_and_grace_period (k : Kubernetes) (spec : Spec) (w : World k) :
  let ns := PodSpec.Namespace (PodSpec spec) in
  let name := PodSpec.Name (PodSpec spec) in
  let t := map call (since w (snd (Destroy k spec w))) in
  journal (snd (Destroy k spec w)) =
    journal w ++ since w (snd (Destroy k spec w)) /\
  truthful k (remote w) (since w (snd (Destroy k spec w))) /\
  since w (snd (Destroy k spec w)) = conduct k (remote w) (teardown spec) /\
  remote (snd (Destroy k spec w)) = replay k (teardown spec) (remote w) /\
  t = teardown spec /\
  t = match PullSecret spec with
      | Some ps => [DeleteCall SecretsResource ns (Secret.Name ps)
                               {| metav1.GracePeriodSeconds := None |}]
      | None => []
      end ++
      [DeleteCall SecretsResource ns name {| metav1.GracePeriodSeconds := None |};
       DeleteCall ConfigMapsResource ns name {| metav1.GracePeriodSeconds := None |};
       DeleteCall PodsResource ns name {| metav1.GracePeriodSeconds := Some 0 |}] /\
  (forall c, c ∈ t ->
     exists r n opts, c = DeleteCall r ns n opts /\
       metav1.GracePeriodSeconds opts =
         match r with PodsResource => Some 0 | _ => None end).
Proof.
  cbv zeta. destruct (Destroy_journal k spec w) as (t & Hj & Ht & Hr & Hc & _).
  rewrite (since_app _ _ _ Hj), Hc.
  split_and!; try reflexivity; try assumption.
  { rewrite <- Hc. now apply truthful_conduct. }
  { now rewrite <- Hc. }
  intros c Hin. unfold teardown in Hin.
  destruct (PullSecret spec) as [ps|]; cbn in Hin;
    repeat (apply elem_of_cons in Hin as [->|Hin]; [eauto 6|]);
    now apply elem_of_nil in Hin.
Qed.

(** *** Setup followed by Destroy *)

(** Counterexample to C4 as stated.  In the scenario of the spec Setup
    succeeds, and Destroy then asks for the deletion of a config map that
    Setup never created: the platform answers that there is none, and
    Destroy returns that failure instead of nil. *)
Lemma Destroy_after_Setup_reports_the_config_map :
  let w1 := snd (Setup Scenario.K Scenario.spec Scenario.w0) in
  let w2 := snd (Destroy Scenario.K Scenario.spec w1) in
  fst (Setup Scenario.K Scenario.spec Scenario.w0) = None /\
  createdKeys (since Scenario.w0 w1) =
    [(SecretsResource, "drone", "build-abc123");
     (PodsResource, "drone", "build-abc123")] /\
  deletionKeys (since w1 w2) =
    [(SecretsResource, "drone", "build-abc123");
     (ConfigMapsResource, "drone", "build-abc123");
     (PodsResource, "drone", "build-abc123")] /\
  fst (Destroy Scenario.K Scenario.spec w1) =
    Some (MultiError [StatusError "NotFound" "build-abc123"]) /\
  ~ SetupDestroySymmetry Scenario.feed Scenario.exited0
      {| roundTripper := None |} Scenario.spec Scenario.w0.
Proof.
  cbv zeta. split_and!; try (vm_compute; reflexivity).
  intros H. destruct (H eq_refl) as (_ & _ & Hnil).
  vm_compute in Hnil. discriminate.
Qed.

Lemma create_accepts (r : Resource) (ns : string) (o : Object) (c : gmap Platform.Key Object) :
  fst (Platform.create r ns o c) = None ->
  c !! (r, ns, Platform.objectName o) = None /\
  Platform.create r ns o c = (None, <[(r, ns, Platform.objectName o) := o]> c).
Proof.
  unfold Platform.create.
  destruct (c !! (r, ns, Platform.objectName o)); cbn; [discriminate | auto].
Qed.

(** Rewrite the lookups of a store built by insertions and deletions. *)
Ltac lookups :=
  repeat (rewrite lookup_insert_eq || rewrite lookup_delete_eq ||
          (rewrite lookup_insert_ne by congruence) ||
          (rewrite lookup_delete_ne by congruence)).

(** C4, as the code has it.  On a platform that keeps its objects, when
    Setup succeeds and the namespace holds no config map of the workload's
    name, Destroy asks for the deletion of every object Setup created and
    of that config map besides; afterwards none of the created objects
    remains and the store is as it was before Setup; Destroy returns the
    combined error holding the one failure of the config map's deletion. *)
Theorem Setup_then_Destroy_restores_the_store
        (feed : Feed) (x : Exec) (cfg : Config) (spec : Spec)
        (w : World (Platform.kube feed x cfg)) :
  let K := Platform.kube feed x cfg in
  let ns := PodSpec.Namespace (PodSpec spec) in
  let name := PodSpec.Name (PodSpec spec) in
  let w1 := snd (Setup K spec w) in
  let w2 := snd (Destroy K spec w1) in
  fst (Setup K spec w) = None ->
  (remote w : gmap Platform.Key Object) !! (ConfigMapsResource, ns, name) = None ->
  deletionKeys (since w1 w2) ≡ₚ
    (ConfigMapsResource, ns, name) :: createdKeys (since w w1) /\
  (forall key, key ∈ createdKeys (since w w1) ->
               (remote w2 : gmap Platform.Key Object) !! key = None) /\
  (remote w2 : gmap Platform.Key Object) = remote w /\
  fst (Destroy K spec w1) = Some (MultiError [StatusError "NotFound" name]).
Proof.
  cbv zeta. intros Hok Hcm.
  set (K := Platform.kube feed x cfg) in *.
  destruct (Setup_journal K spec w) as (t1 & Hj1 & Ht1 & Hr1 & _ & Hc1 & _ & Hs1).
  rewrite Hok in Hs1. destruct Hs1 as [Hlen Hs1].
  rewrite Hlen, firstn_all in Hc1.
  destruct (Destroy_journal K spec (snd (Setup K spec w)))
    as (t2 & Hj2 & Ht2 & Hr2 & Hc2 & Hres).
  rewrite (since_app _ _ _ Hj1), (since_app _ _ _ Hj2), Hres, Hr2, Hr1.
  apply truthful_conduct in Ht1, Ht2. rewrite Hc1 in Ht1. rewrite Hc2, Hr1, Hc1 in Ht2.
  rewrite Hc1, Hc2. subst t1 t2. clear Hj1 Hj2 Hr1 Hr2 Hc1 Hc2 Hres Hlen Hok.
  revert Hs1 Hcm. generalize (remote w). subst K. cbn [Cluster Platform.kube].
  intros c Hs Hcm.
  unfold provisioning, teardown in *.
  destruct (PullSecret spec) as [ps|] eqn:Hps;
    cbn [app conduct replay fold_left perform reply client Create Delete
         Platform.kube] in *.
  - apply Forall_cons in Hs as [H0 Hs]. apply create_accepts in H0 as [L0 E0].
    rewrite E0 in *. cbn [fst snd] in *.
    apply Forall_cons in Hs as [H1 Hs]. apply create_accepts in H1 as [L1 E1].
    rewrite E1 in *. cbn [fst snd] in *.
    apply Forall_cons in Hs as [H2 _]. apply create_accepts in H2 as [L2 E2].
    rewrite E2. cbn [fst snd].
    unfold toDockerConfigSecret in *. rewrite Hps in *.
    cbn [Platform.objectName toSecret toPod v1.SecretMeta v1.ObjectMeta
         metav1.Name] in *.
    apply lookup_insert_None in L1 as [L1 Hne].
    do 2 rewrite lookup_insert_ne in L2 by congruence.
    unfold Platform.delete.
    repeat (progress (lookups; rewrite ?Hcm; cbn [fst snd])).
    cbn [fst snd createdKeys deletionKeys flat_map call answer app map
         fold_left collect Platform.objectName v1.SecretMeta v1.ObjectMeta
         metav1.Name].
    split_and!.
    + symmetry.
      apply (Permutation_middle
               [(SecretsResource, PodSpec.Namespace (PodSpec spec), Secret.Name ps);
                (SecretsResource, PodSpec.Namespace (PodSpec spec),
                 PodSpec.Name (PodSpec spec))]).
    + intros key Hin.
      repeat (apply elem_of_cons in Hin as [->|Hin]; [now lookups|]).
      now apply elem_of_nil in Hin.
    + apply map_eq; intros i.
      destruct (decide (i = (PodsResource, PodSpec.Namespace (PodSpec spec),
                             PodSpec.Name (PodSpec spec)))) as [->|];
        [lookups; symmetry; assumption|].
      destruct (decide (i = (SecretsResource, PodSpec.Namespace (PodSpec spec),
                             PodSpec.Name (PodSpec spec)))) as [->|];
        [lookups; symmetry; assumption|].
      destruct (decide (i = (SecretsResource, PodSpec.Namespace (PodSpec spec),
                             Secret.Name ps))) as [->|];
        [lookups; symmetry; assumption|].
      now lookups.
    + reflexivity.
  - apply Forall_cons in Hs as [H1 Hs]. apply create_accepts in H1 as [L1 E1].
    rewrite E1 in *. cbn [fst snd] in *.
    apply Forall_cons in Hs as [H2 _]. apply create_accepts in H2 as [L2 E2].
    rewrite E2. cbn [fst snd].
    cbn [Platform.objectName toSecret toPod v1.SecretMeta v1.ObjectMeta
         metav1.Name] in *.
    rewrite lookup_insert_ne in L2 by congruence.
    unfold Platform.delete.
    repeat (progress (lookups; rewrite ?Hcm; cbn [fst snd])).
    cbn [fst snd createdKeys deletionKeys flat_map call answer app map
         fold_left collect Platform.objectName toSecret toPod v1.SecretMeta
         v1.ObjectMeta metav1.Name].
    split_and!.
    + apply Permutation_swap.
    + intros key Hin.
      repeat (apply elem_of_cons in Hin as [->|Hin]; [now lookups|]).
      now apply elem_of_nil in Hin.
    + apply map_eq; intros i.
      destruct (decide (i = (PodsResource, PodSpec.Namespace (PodSpec spec),
                             PodSpec.Name (PodSpec spec)))) as [->|];
        [lookups; symmetry; assumption|].
      destruct (decide (i = (SecretsResource, PodSpec.Namespace (PodSpec spec),
                             PodSpec.Name (PodSpec spec)))) as [->|];
        [lookups; symmetry; assumption|].
      now lookups.
    + reflexivity.
Qed.

Lemma Setup_then_Destroy_with_pull_secret :
  let w1 := snd (Setup Scenario.K Scenario.specPull Scenario.w0) in
  let w2 := snd (Destroy Scenario.K Scenario.specPull w1) in
  fst (Setup Scenario.K Scenario.specPull Scenario.w0) = None /\
  (remote Scenario.w0 : gmap Platform.Key Object)
    !! (ConfigMapsResource, "drone", "build-abc123") = None /\
  (deletionKeys (since w1 w2) ≡ₚ
     (ConfigMapsResource, "drone", "build-abc123") ::
     createdKeys (since Scenario.w0 w1) /\
   (forall key, key ∈ createdKeys (since Scenario.w0 w1) ->
                (remote w2 : gmap Platform.Key Object) !! key = None) /\
   (remote w2 : gmap Platform.Key Object) = remote Scenario.w0 /\
   fst (Destroy Scenario.K Scenario.specPull w1) =
     Some (MultiError [StatusError "NotFound" "build-abc123"])).
Proof.
  cbv zeta. split; [vm_compute; reflexivity|].
  split; [vm_compute; reflexivity|].
  apply (Setup_then_Destroy_restores_the_store
           Scenario.feed Scenario.exited0 {| roundTripper := None |}
           Scenario.specPull Scenario.w0);
    vm_compute; reflexivity.
Defined.

(** *** Readiness *)

Section ReadinessFacts.

Variable k : Kubernetes.

Lemma note_run (c : Call) (r : option error) (w : World k) :
  note c r w = (tt, noted w [{| call := c; answer := r |}]).
Proof. reflexivity. Qed.

Lemma noted_noted (w : World k) (t u : list Entry) :
  noted (noted w t) u = noted w (t ++ u).
Proof. unfold noted; cbn. now rewrite app_assoc. Qed.

(** Events the condition turns down are read one after the other, and
    the wait ends as the stream does. *)
Lemma Until_all_rejected (condition : watch.Event -> bool * option error)
      (ch : list watch.Event) (fin : StreamEnd)
      (lastEvent : option watch.Event) (w : World k) :
  Forall (fun e => condition e = (false, None)) ch ->
  exists ev,
    watchtools.UntilWithoutRetry ch fin lastEvent condition w =
      ((ev, Some (endError fin)), noted w (map received ch)).
Proof.
  revert lastEvent w. induction ch as [|e ch IH]; intros lastEvent w Hall.
  - exists lastEvent. cbn. unfold noted. rewrite app_nil_r.
    destruct w, fin; reflexivity.
  - apply Forall_cons in Hall as [He Hall].
    cbn [watchtools.UntilWithoutRetry]. unfold bind at 1.
    rewrite note_run, He. fold (received e).
    destruct (IH (Some e) (noted w [received e]) Hall) as [ev Hev].
    exists ev. rewrite Hev. now rewrite noted_noted.
Qed.

(** The first event the condition accepts ends the wait without error. *)
Lemma Until_accepts (condition : watch.Event -> bool * option error)
      (pre : list watch.Event) (e : watch.Event) (post : list watch.Event)
      (fin : StreamEnd) (lastEvent : option watch.Event) (w : World k) :
  Forall (fun e => condition e = (false, None)) pre ->
  condition e = (true, None) ->
  watchtools.UntilWithoutRetry (pre ++ e :: post) fin lastEvent condition w =
    ((Some e, None), noted w (map received (pre ++ [e]))).
Proof.
  revert lastEvent w. induction pre as [|p pre IH]; intros lastEvent w Hall He.
  - cbn [app watchtools.UntilWithoutRetry map]. unfold bind at 1.
    now rewrite note_run, He.
  - apply Forall_cons in Hall as [Hp Hall].
    cbn [app watchtools.UntilWithoutRetry]. unfold bind at 1.
    rewrite note_run, Hp. fold (received p).
    rewrite IH by assumption. now rewrite noted_noted.
Qed.

(** Whatever the condition does, reading the watch only notes received
    events. *)
Lemma Until_journal (condition : watch.Event -> bool * option error)
      (ch : list watch.Event) (fin : StreamEnd)
      (lastEvent : option watch.Event) (w : World k) :
  exists n,
    snd (watchtools.UntilWithoutRetry ch fin lastEvent condition w) =
      noted w (map received (take n ch)).
Proof.
  revert lastEvent w. induction ch as [|e ch IH]; intros lastEvent w.
  - exists 0%nat. cbn. unfold noted. rewrite app_nil_r.
    destruct w, fin; reflexivity.
  - cbn [watchtools.UntilWithoutRetry]. unfold bind at 1.
    rewrite note_run. fold (received e).
    destruct (condition e) as [[|] [err|]].
    1-3: exists 1%nat; reflexivity.
    destruct (IH (Some e) (noted w [received e])) as [n Hn].
    exists (S n). rewrite Hn, noted_noted. reflexivity.
Qed.

(** [waitFor] step by step. *)
Lemma waitFor_run (spec : Spec) (condition : watch.Event -> bool * option error)
      (w : World k) :
  waitFor k spec condition w =
    let feed := feedOf spec w in
    let w1 := noted w [listed spec] in
    if negb (synced feed) then (Some ErrCacheSync, w1)
    else match preconditionFunc spec (store feed) with
         | (_, Some err) => (Some err, w1)
         | (true, None) => (None, w1)
         | (false, None) =>
             let r := watchtools.UntilWithoutRetry
                        (events feed) (ending feed) None condition w1 in
             (snd (fst r), snd r)
         end.
Proof.
  unfold waitFor, watchtools.UntilWithSync, watchtools.informer, bind, ret.
  fold (selector spec). fold (feedOf spec w). fold (listed spec).
  fold (noted w [listed spec]). cbv zeta.
  destruct (synced (feedOf spec w)); cbn [negb]; [|reflexivity].
  destruct (preconditionFunc spec (store (feedOf spec w))) as [[|] [err|]];
    try reflexivity.
  destruct (watchtools.UntilWithoutRetry _ _ _ _ _) as [[ev err] w2].
  reflexivity.
Qed.

End ReadinessFacts.

Lemma readyCondition_no_error (spec : Spec) (e : watch.Event) :
  snd (readyCondition spec e) = None.
Proof.
  unfold readyCondition.
  destruct (watch.Type_ e), (watch.Object_ e); try reflexivity;
    destruct (negb _); try reflexivity; destruct (String.eqb _ _); reflexivity.
Qed.

Lemma readyCondition_accepted (spec : Spec) (e : watch.Event) :
  fst (readyCondition spec e) = true <-> accepted spec e.
Proof.
  unfold readyCondition, accepted. split.
  - destruct (watch.Type_ e), (watch.Object_ e) as [pod| |]; cbn; try discriminate;
      (destruct (String.eqb (metav1.Name _) _) eqn:Hn; cbn; [|discriminate]);
      (destruct (String.eqb (v1.Phase _) _) eqn:Hp; cbn; [|discriminate]);
      intros _; apply String.eqb_eq in Hn, Hp; eauto 6.
  - intros [Hty (pod & -> & Hn & Hp)].
    apply String.eqb_eq in Hn, Hp.
    destruct Hty as [-> | ->]; cbn; now rewrite Hn, Hp.
Qed.

Lemma readyCondition_rejected (spec : Spec) (e : watch.Event) :
  ~ accepted spec e -> readyCondition spec e = (false, None).
Proof.
  intros Hno. pose proof (readyCondition_no_error spec e) as Herr.
  pose proof (readyCondition_accepted spec e) as Hacc.
  destruct (readyCondition spec e) as [[|] err]; cbn in *; subst.
  - destruct Hno. now apply Hacc.
  - reflexivity.
Qed.

(** C5. The condition of [waitForReady] never fails, and it accepts an
    event if and only if the event is an add or a modify of a pod that has
    the workload's name and is in the running phase.  Deleted events, pods
    of another name and the terminal phases failed and succeeded are turned
    down.  The wait goes on over the events turned down: it ends without
    error at the first accepted event, and when none is accepted it ends
    with the error of the cancelled context or of the closed watch. *)
Theorem readiness_condition (spec : Spec) :
  (forall e, snd (readyCondition spec e) = None) /\
  (forall e, fst (readyCondition spec e) = true <-> accepted spec e) /\
  (forall e, watch.Type_ e = watch.Deleted ->
             fst (readyCondition spec e) = false) /\
  (forall e pod, watch.Object_ e = PodObject pod ->
                 metav1.Name (v1.ObjectMeta pod) <> PodSpec.Name (PodSpec spec) ->
                 fst (readyCondition spec e) = false) /\
  (forall e pod, watch.Object_ e = PodObject pod ->
                 v1.Phase pod = v1.PodFailed \/ v1.Phase pod = v1.PodSucceeded ->
                 fst (readyCondition spec e) = false) /\
  (forall (k : Kubernetes) (step : Step) (w : World k),
      synced (feedOf spec w) = true ->
      preconditionFunc spec (store (feedOf spec w)) = (false, None) ->
      Forall (fun e => ~ accepted spec e) (events (feedOf spec w)) ->
      waitForReady k spec step w =
        (Some (endError (ending (feedOf spec w))),
         noted w (listed spec :: map received (events (feedOf spec w))))) /\
  (forall (k : Kubernetes) (step : Step) (w : World k) pre e post,
      synced (feedOf spec w) = true ->
      preconditionFunc spec (store (feedOf spec w)) = (false, None) ->
      events (feedOf spec w) = pre ++ e :: post ->
      Forall (fun e => ~ accepted spec e) pre ->
      accepted spec e ->
      waitForReady k spec step w =
        (None, noted w (listed spec :: map received (pre ++ [e])))).
Proof.
  assert (Hrej : forall e, ~ accepted spec e -> fst (readyCondition spec e) = false).
  { intros e He. now rewrite readyCondition_rejected. }
  split_and!.
  - apply readyCondition_no_error.
  - apply readyCondition_accepted.
  - intros e Hty. apply Hrej. intros [[H|H] _]; congruence.
  - intros e pod Ho Hn. apply Hrej. intros [_ (pod' & Ho' & Hn' & _)].
    congruence.
  - intros e pod Ho Hp. apply Hrej. intros [_ (pod' & Ho' & _ & Hp')].
    assert (pod' = pod) as -> by congruence.
    rewrite Hp' in Hp. destruct Hp as [Hp|Hp]; discriminate Hp.
  - intros k step w Hs Hpre Hall.
    unfold waitForReady. rewrite waitFor_run. cbv zeta.
    rewrite Hs, Hpre. cbn [negb].
    destruct (Until_all_rejected k (readyCondition spec)
                (events (feedOf spec w)) (ending (feedOf spec w)) None
                (noted w [listed spec])) as [ev Hev].
    { eapply Forall_impl; [exact Hall|]. apply readyCondition_rejected. }
    rewrite Hev. cbn [fst snd]. now rewrite noted_noted.
  - intros k step w pre e post Hs Hpre Hev Hall He.
    unfold waitForReady. rewrite waitFor_run. cbv zeta.
    rewrite Hs, Hpre, Hev. cbn [negb].
    rewrite Until_accepts.
    + cbn [fst snd]. now rewrite noted_noted.
    + eapply Forall_impl; [exact Hall|]. apply readyCondition_rejected.
    + pose proof (readyCondition_no_error spec e) as Herr.
      apply readyCondition_accepted in He.
      destruct (readyCondition spec e); cbn in *; congruence.
Qed.

Lemma readiness_pending_then_running :
  let running := {| watch.Type_ := watch.Modified;
                    watch.Object_ := Scenario.pod v1.PodRunning |} in
  let pending := {| watch.Type_ := watch.Added;
                    watch.Object_ := Scenario.pod v1.PodPending |} in
  accepted Scenario.spec running /\
  ~ accepted Scenario.spec pending /\
  waitForReady Scenario.K Scenario.spec Scenario.step Scenario.w0 =
    (None, noted Scenario.w0
             [listed Scenario.spec; received pending; received running]).
Proof.
  cbv zeta.
  destruct (readiness_condition Scenario.spec) as (_ & Hacc & _ & _ & _ & _ & Hrun).
  assert (Hr : accepted Scenario.spec
                 {| watch.Type_ := watch.Modified;
                    watch.Object_ := Scenario.pod v1.PodRunning |}).
  { apply Hacc. reflexivity. }
  assert (Hp : ~ accepted Scenario.spec
                 {| watch.Type_ := watch.Added;
                    watch.Object_ := Scenario.pod v1.PodPending |}).
  { intros H. apply Hacc in H. discriminate H. }
  split; [exact Hr|]. split; [exact Hp|].
  apply (Hrun Scenario.K Scenario.step Scenario.w0
              [{| watch.Type_ := watch.Added;
                  watch.Object_ := Scenario.pod v1.PodPending |}]
              {| watch.Type_ := watch.Modified;
                 watch.Object_ := Scenario.pod v1.PodRunning |} []).
  - reflexivity.
  - reflexivity.
  - reflexivity.
  - constructor; [exact Hp | constructor].
  - exact Hr.
Defined.

(** C6. When the cache has synced and the precondition finds the workload
    absent from the store, [waitFor] returns nil at once: the journal gains
    the list-watch and no event is received from the watch. *)
Theorem waitFor_returns_when_absent
        (k : Kubernetes) (spec : Spec)
        (condition : watch.Event -> bool * option error) (w : World k) :
  synced (feedOf spec w) = true ->
  (exists o, Get (store (feedOf spec w)) (workloadKey spec) = (o, false, None)) ->
  waitFor k spec condition w = (None, noted w [listed spec]) /\
  Forall (fun x => isReceive (call x) = false)
         (since w (snd (waitFor k spec condition w))).
Proof.
  intros Hs [o Hget].
  assert (Hrun : waitFor k spec condition w = (None, noted w [listed spec])).
  { rewrite waitFor_run. cbv zeta. rewrite Hs. cbn [negb].
    unfold preconditionFunc. fold (workloadKey spec). now rewrite Hget. }
  split; [exact Hrun|].
  rewrite Hrun. cbn [snd].
  rewrite (since_app w (noted w [listed spec]) [listed spec]) by reflexivity.
  repeat constructor.
Qed.

Lemma waitFor_pod_already_gone :
  let K := Platform.kube Scenario.feedGone Scenario.exited0
                         {| roundTripper := None |} in
  let w : World K := {| remote := ∅; output := ""; journal := [] |} in
  length (events (feedOf Scenario.spec w)) = 1%nat /\
  waitFor K Scenario.spec (readyCondition Scenario.spec) w =
    (None, noted w [listed Scenario.spec]) /\
  Forall (fun x => isReceive (call x) = false)
         (since w (snd (waitFor K Scenario.spec (readyCondition Scenario.spec) w))).
Proof.
  cbv zeta. split; [reflexivity|].
  apply (waitFor_returns_when_absent
           (Platform.kube Scenario.feedGone Scenario.exited0
                          {| roundTripper := None |})
           Scenario.spec (readyCondition Scenario.spec)
           {| remote := ∅; output := ""; journal := [] |}).
  - reflexivity.
  - exists None. reflexivity.
Defined.

(** *** Execution *)

Lemma length_append (s1 s2 : string) :
  String.length (s1 +:+ s2) = (String.length s1 + String.length s2)%nat.
Proof.
  induction s1 as [|c s1 IH]; [reflexivity|].
  change (S (String.length (s1 +:+ s2)) =
          S (String.length s1 + String.length s2)).
  now rewrite IH.
Qed.

Lemma lines_cat (s : string) :
  fst (nicelog.lines s) +:+ snd (nicelog.lines s) = s.
Proof.
  induction s as [|c s IH]; cbn; [reflexivity|].
  destruct (nicelog.lines s) as [full rest]. cbn in IH. subst s.
  destruct full as [|d full]; cbn; [|reflexivity].
  destruct (Ascii.eqb c nicelog.newline); reflexivity.
Qed.

Lemma lines_length (s : string) :
  (String.length (fst (nicelog.lines s)) + String.length (snd (nicelog.lines s)))%nat
  = String.length s.
Proof. now rewrite <- length_append, lines_cat. Qed.

Section ExecutionFacts.

Variable k : Kubernetes.

(** Writing to a sink changes the output only, and no byte is lost:
    what was written is in the output or still pending. *)
Lemma Write_conserves (wr : nicelog.Writer) (p : string) (w : World k) :
  let wr' := fst (nicelog.Write wr p w) in
  let w' := snd (nicelog.Write wr p w) in
  remote w' = remote w /\ journal w' = journal w /\
  nicelog.sink wr' = nicelog.sink wr /\
  (String.length (output w') + String.length (nicelog.pending wr'))%nat =
  (String.length (output w) + String.length (nicelog.pending wr)
   + String.length p)%nat.
Proof.
  cbv zeta. unfold nicelog.Write.
  pose proof (lines_length (nicelog.pending wr +:+ p)) as Hl.
  destruct (nicelog.lines (nicelog.pending wr +:+ p)) as [full rest].
  cbn in *. rewrite !length_append in *. repeat split. lia.
Qed.

Lemma copy_stdout (p : string) (cs : list (Fd * string))
      (out err : nicelog.Writer) (w : World k) :
  remotecommand.copy ((Stdout, p) :: cs) out err w =
    remotecommand.copy cs (fst (nicelog.Write out p w)) err
                       (snd (nicelog.Write out p w)).
Proof.
  cbn [remotecommand.copy]. unfold bind.
  now destruct (nicelog.Write out p w).
Qed.

Lemma copy_stderr (p : string) (cs : list (Fd * string))
      (out err : nicelog.Writer) (w : World k) :
  remotecommand.copy ((Stderr, p) :: cs) out err w =
    remotecommand.copy cs out (fst (nicelog.Write err p w))
                       (snd (nicelog.Write err p w)).
Proof.
  cbn [remotecommand.copy]. unfold bind.
  now destruct (nicelog.Write err p w).
Qed.

Lemma copy_conserves (cs : list (Fd * string)) (out err : nicelog.Writer)
      (w : World k) :
  let out' := fst (fst (remotecommand.copy cs out err w)) in
  let err' := snd (fst (remotecommand.copy cs out err w)) in
  let w' := snd (remotecommand.copy cs out err w) in
  remote w' = remote w /\ journal w' = journal w /\
  nicelog.sink out' = nicelog.sink out /\
  nicelog.sink err' = nicelog.sink err /\
  (String.length (output w') + String.length (nicelog.pending out')
   + String.length (nicelog.pending err'))%nat =
  (String.length (output w) + String.length (nicelog.pending out)
   + String.length (nicelog.pending err) + written cs)%nat.
Proof.
  cbv zeta. revert out err w.
  induction cs as [|[[|] p] cs IH]; intros out err w.
  - cbn. repeat split. lia.
  - rewrite copy_stdout. cbn [written fold_right snd]. fold (written cs).
    destruct (Write_conserves out p w) as (Hr & Hj & Hs & Hl).
    destruct (IH (fst (nicelog.Write out p w)) err
                 (snd (nicelog.Write out p w)))
      as (Hr' & Hj' & Hs' & Hs'' & Hl').
    split_and!; try congruence. lia.
  - rewrite copy_stderr. cbn [written fold_right snd]. fold (written cs).
    destruct (Write_conserves err p w) as (Hr & Hj & Hs & Hl).
    destruct (IH out (fst (nicelog.Write err p w))
                 (snd (nicelog.Write err p w)))
      as (Hr' & Hj' & Hs' & Hs'' & Hl').
    split_and!; try congruence. lia.
Qed.

(** [start] when the round tripper cannot be built: the error comes
    back before anything is streamed or flushed. *)
Lemma start_no_executor (spec : Spec) (step : Step) (w : World k) (e : error) :
  roundTripper (config k) = Some e ->
  start k spec step w =
    ((None, Some e),
     noted w [{| call := NewExecutorCall (execRequest spec step);
                 answer := Some e |}]).
Proof.
  intros He. unfold start, remotecommand.NewSPDYExecutor, bind.
  rewrite note_run, He. reflexivity.
Qed.

(** [start] when the executor is built, step by step. *)
Lemma start_attached (spec : Spec) (step : Step) (w : World k) :
  roundTripper (config k) = None ->
  start k spec step w =
    let c := remotecommand.copy (chunks (execOf spec step w))
               (nicelog.New Stdout) (nicelog.New Stderr)
               (noted w [{| call := NewExecutorCall (execRequest spec step);
                            answer := None |}]) in
    (outcome (exit (execOf spec step w)),
     {| remote := remote (snd c);
        output := (output (snd c) +:+ nicelog.pending (fst (fst c)))
                  +:+ nicelog.pending (snd (fst c));
        journal := journal (snd c) ++
          [{| call := StreamCall (execRequest spec step);
              answer := exit (execOf spec step w) |};
           {| call := FlushCall (nicelog.sink (fst (fst c))); answer := None |};
           {| call := FlushCall (nicelog.sink (snd (fst c))); answer := None |}]
     |}).
Proof.
  intros Hrt. cbv zeta.
  unfold start, remotecommand.NewSPDYExecutor, remotecommand.Stream,
    nicelog.Flush, bind, note, emit, ret, noted, execOf.
  rewrite Hrt. cbn [remote output journal].
  destruct (remotecommand.copy _ _ _ _) as [[out err] w1].
  cbn [fst snd remote output journal nicelog.sink nicelog.pending].
  repeat rewrite <- app_assoc. cbn [app]. unfold outcome.
  destruct (exit _) as [e|]; [|reflexivity].
  destruct (exec.ExitStatus e); reflexivity.
Qed.

(** [start] when the executor is built: the stream is read, both sinks
    are flushed, and the answer of the stream decides the result; every
    byte the process wrote has reached the output. *)
Lemma start_run (spec : Spec) (step : Step) (w : World k) :
  roundTripper (config k) = None ->
  let w' := snd (start k spec step w) in
  fst (start k spec step w) = outcome (exit (execOf spec step w)) /\
  remote w' = remote w /\
  journal w' = journal w ++ attached spec step (exit (execOf spec step w)) /\
  String.length (output w') =
    (String.length (output w) + written (chunks (execOf spec step w)))%nat.
Proof.
  intros Hrt. cbv zeta. rewrite start_attached by assumption. cbv zeta.
  destruct (copy_conserves (chunks (execOf spec step w))
              (nicelog.New Stdout) (nicelog.New Stderr)
              (noted w [{| call := NewExecutorCall (execRequest spec step);
                           answer := None |}]))
    as (Hr & Hj & Hs & Hs' & Hl).
  cbn [fst snd remote output journal] in *.
  rewrite Hr, Hj, Hs, Hs', !length_append.
  cbn [noted remote output journal nicelog.New nicelog.sink nicelog.pending
       String.length] in *.
  split_and!; try reflexivity.
  - now rewrite <- app_assoc.
  - lia.
Qed.

End ExecutionFacts.

Section RunFacts.

Variable k : Kubernetes.

Lemma Run_run (spec : Spec) (step : Step) (w : World k) :
  Run k spec step w =
    match fst (waitForReady k spec step w) with
    | Some e => ((None, Some e), snd (waitForReady k spec step w))
    | None => start k spec step (snd (waitForReady k spec step w))
    end.
Proof.
  unfold Run, bind. now destruct (waitForReady k spec step w) as [[e|] w1].
Qed.

(** The wait notes the list-watch and received events, nothing else. *)
Lemma waitFor_journal (spec : Spec)
      (condition : watch.Event -> bool * option error) (w : World k) :
  exists n,
    snd (waitFor k spec condition w) =
      noted w (listed spec :: map received (take n (events (feedOf spec w)))).
Proof.
  rewrite waitFor_run. cbv zeta.
  destruct (synced (feedOf spec w)); cbn [negb]; [|now exists 0%nat].
  destruct (preconditionFunc spec (store (feedOf spec w))) as [[|] [err|]];
    try (now exists 0%nat).
  destruct (Until_journal k condition (events (feedOf spec w))
              (ending (feedOf spec w)) None (noted w [listed spec]))
    as [n Hn].
  exists n. cbn [snd]. now rewrite Hn, noted_noted.
Qed.

Lemma waitFor_never_attaches (spec : Spec)
      (condition : watch.Event -> bool * option error) (w : World k) :
  Forall (fun x => isExec (call x) = false)
         (since w (snd (waitFor k spec condition w))).
Proof.
  destruct (waitFor_journal spec condition w) as [n Hn]. rewrite Hn.
  rewrite (since_app w _ (listed spec ::
             map received (take n (events (feedOf spec w))))) by reflexivity.
  constructor; [reflexivity|].
  apply Forall_forall. intros x Hx.
  apply list_elem_of_fmap in Hx as (e & -> & _). reflexivity.
Qed.

End RunFacts.

(** C7. Once the executor is built, [start] classifies what the stream
    call returns: nil gives the state exited with code 0 and no error; a
    exit-status error gives the state exited with the code of the error,
    not OOM-killed, and no error; any other error gives no state and the
    error itself. *)
Theorem start_classifies_the_stream_outcome
        (k : Kubernetes) (spec : Spec) (step : Step) (w : World k) :
  roundTripper (config k) = None ->
  (exit (execOf spec step w) = None ->
   fst (start k spec step w) =
     (Some {| Exited := true; ExitCode := 0; OOMKilled := false |}, None)) /\
  (forall msg code,
      exit (execOf spec step w) = Some (CodeExitError msg code) ->
      fst (start k spec step w) =
        (Some {| Exited := true; ExitCode := code; OOMKilled := false |}, None)) /\
  (forall e,
      exit (execOf spec step w) = Some e ->
      (forall msg code, e <> CodeExitError msg code) ->
      fst (start k spec step w) = (None, Some e)).
Proof.
  intros Hrt. destruct (start_run k spec step w Hrt) as (-> & _).
  split_and!.
  - now intros ->.
  - now intros msg code ->.
  - intros e -> Hne. destruct e; try reflexivity. now destruct (Hne Err Code).
Qed.

Lemma start_exit_status_137 :
  let K := Platform.kube Scenario.feed Scenario.exited137
                         {| roundTripper := None |} in
  let w : World K := {| remote := ∅; output := ""; journal := [] |} in
  roundTripper (config K) = None /\
  fst (start K Scenario.spec Scenario.step w) =
    (Some {| Exited := true; ExitCode := 137; OOMKilled := false |}, None).
Proof.
  cbv zeta. split; [reflexivity|].
  destruct (start_classifies_the_stream_outcome
              (Platform.kube Scenario.feed Scenario.exited137
                             {| roundTripper := None |})
              Scenario.spec Scenario.step
              {| remote := ∅; output := ""; journal := [] |} eq_refl)
    as (_ & Hcode & _).
  apply (Hcode "command terminated with exit code 137" 137). reflexivity.
Defined.

(** *** The bytes that reach the writer *)

Lemma append_assoc (s1 s2 s3 : string) :
  (s1 +:+ s2) +:+ s3 = s1 +:+ (s2 +:+ s3).
Proof.
  induction s1 as [|c s1 IH]; [reflexivity|].
  change (String c ((s1 +:+ s2) +:+ s3) = String c (s1 +:+ (s2 +:+ s3))).
  now rewrite IH.
Qed.

Lemma append_empty (s : string) : s +:+ "" = s.
Proof.
  induction s as [|c s IH]; [reflexivity|].
  change (String c (s +:+ "") = String c s). now rewrite IH.
Qed.

Lemma Interleaved_left (a : string) : Interleaved a "" a.
Proof. induction a; now constructor. Qed.

Lemma Interleaved_right (b : string) : Interleaved "" b b.
Proof. induction b; now constructor. Qed.

Lemma Interleaved_app (a b s a' b' s' : string) :
  Interleaved a b s -> Interleaved a' b' s' ->
  Interleaved (a +:+ a') (b +:+ b') (s +:+ s').
Proof.
  intros H H'. induction H as [|c a b s H IH|c a b s H IH].
  - exact H'.
  - change (Interleaved (String c (a +:+ a')) (b +:+ b') (String c (s +:+ s'))).
    now constructor.
  - change (Interleaved (a +:+ a') (String c (b +:+ b')) (String c (s +:+ s'))).
    now constructor.
Qed.

Lemma Write_split (k : Kubernetes) (wr : nicelog.Writer) (p : string)
      (w : World k) :
  exists full,
    output (snd (nicelog.Write wr p w)) = output w +:+ full /\
    full +:+ nicelog.pending (fst (nicelog.Write wr p w)) =
      nicelog.pending wr +:+ p.
Proof.
  unfold nicelog.Write.
  pose proof (lines_cat (nicelog.pending wr +:+ p)) as Hl.
  destruct (nicelog.lines (nicelog.pending wr +:+ p)) as [full rest].
  exists full. cbn in *. now split.
Qed.

(** While the stream is copied, what reached the output is an
    interleaving of what each sink delivered, and each sink holds the rest
    of its stream pending. *)
Lemma copy_interleaves (k : Kubernetes) (cs : list (Fd * string))
      (out err : nicelog.Writer) (w : World k) :
  exists s a b,
    output (snd (remotecommand.copy cs out err w)) = output w +:+ s /\
    nicelog.pending out +:+ streamOf Stdout cs =
      a +:+ nicelog.pending (fst (fst (remotecommand.copy cs out err w))) /\
    nicelog.pending err +:+ streamOf Stderr cs =
      b +:+ nicelog.pending (snd (fst (remotecommand.copy cs out err w))) /\
    Interleaved a b s.
Proof.
  revert out err w. induction cs as [|[[|] p] cs IH]; intros out err w.
  - exists "", "", "". cbn. rewrite !append_empty. split_and!; try reflexivity.
    constructor.
  - rewrite copy_stdout.
    destruct (Write_split k out p w) as (full & Ho & Hf).
    destruct (IH (fst (nicelog.Write out p w)) err
                 (snd (nicelog.Write out p w))) as (s & a & b & Hs & Ha & Hb & Hi).
    exists (full +:+ s), (full +:+ a), b. split_and!.
    + now rewrite Hs, Ho, append_assoc.
    + cbn [streamOf].
      now rewrite append_assoc, <- Ha, <- !append_assoc, Hf.
    + exact Hb.
    + apply (Interleaved_app full "" full a b s);
        [apply Interleaved_left | exact Hi].
  - rewrite copy_stderr.
    destruct (Write_split k err p w) as (full & Ho & Hf).
    destruct (IH out (fst (nicelog.Write err p w))
                 (snd (nicelog.Write err p w))) as (s & a & b & Hs & Ha & Hb & Hi).
    exists (full +:+ s), a, (full +:+ b). split_and!.
    + now rewrite Hs, Ho, append_assoc.
    + exact Ha.
    + cbn [streamOf].
      now rewrite append_assoc, <- Hb, <- !append_assoc, Hf.
    + apply (Interleaved_app "" full full a b s);
        [apply Interleaved_right | exact Hi].
Qed.

(** After the two flushes of [start] the output has gained an
    interleaving of the whole of the two streams. *)
Lemma start_interleaves (k : Kubernetes) (spec : Spec) (step : Step)
      (w : World k) :
  roundTripper (config k) = None ->
  exists s,
    output (snd (start k spec step w)) = output w +:+ s /\
    Interleaved (streamOf Stdout (chunks (execOf spec step w)))
                (streamOf Stderr (chunks (execOf spec step w))) s.
Proof.
  intros Hrt. rewrite start_attached by assumption. cbv zeta. cbn [snd output].
  destruct (copy_interleaves k (chunks (execOf spec step w))
              (nicelog.New Stdout) (nicelog.New Stderr)
              (noted w [{| call := NewExecutorCall (execRequest spec step);
                           answer := None |}]))
    as (s & a & b & Hs & Ha & Hb & Hi).
  destruct (remotecommand.copy _ _ _ _) as [[out err] w1].
  cbn [fst snd nicelog.New nicelog.pending noted output] in *.
  change ("" +:+ streamOf Stdout (chunks (execOf spec step w)))
    with (streamOf Stdout (chunks (execOf spec step w))) in Ha.
  change ("" +:+ streamOf Stderr (chunks (execOf spec step w)))
    with (streamOf Stderr (chunks (execOf spec step w))) in Hb.
  exists ((s +:+ nicelog.pending out) +:+ nicelog.pending err). split.
  - rewrite Hs. now rewrite !append_assoc.
  - rewrite Ha, Hb.
    rewrite <- (append_empty (a +:+ nicelog.pending out)).
    apply Interleaved_app; [|apply Interleaved_right].
    rewrite <- (append_empty b).
    apply Interleaved_app; [exact Hi | apply Interleaved_left].
Qed.

(** Counterexample to C8 as stated.  When the round tripper cannot be
    built, [start] returns the error right away: the journal holds the
    failed construction of the executor and no flush of either sink. *)
Lemma start_without_executor_flushes_nothing :
  let K := Platform.kube Scenario.feed Scenario.exited0 Scenario.badConfig in
  let w : World K := {| remote := ∅; output := ""; journal := [] |} in
  start K Scenario.spec Scenario.step w =
    ((None, Some (TransportError "unable to load root certificates")),
     noted w [{| call := NewExecutorCall (execRequest Scenario.spec Scenario.step);
                 answer := Some (TransportError "unable to load root certificates") |}]) /\
  ~ FlushedOnEveryPath K Scenario.spec Scenario.step w.
Proof.
  cbv zeta. split; [reflexivity|].
  intros [Hout _]. vm_compute in Hout.
  apply elem_of_cons in Hout as [Hout|Hout]; [discriminate Hout|].
  now apply elem_of_nil in Hout.
Qed.

(** C8, as the code has it.  On every exit path of [start] that follows
    the stream call, whatever the stream returned, the stdout sink and then
    the stderr sink are flushed before [start] returns, and no content is
    lost: the output keeps what it held and gains every byte of the
    standard output and every byte of the standard error of the remote
    process, each stream in its order, the last partial lines included.
    When the executor cannot be built, [start] returns that error without
    streaming and without flushing; nothing had been written to the sinks
    and the output is unchanged. *)
Theorem start_flushes_after_the_stream
        (k : Kubernetes) (spec : Spec) (step : Step) (w : World k) :
  let w' := snd (start k spec step w) in
  (roundTripper (config k) = None ->
   since w w' = attached spec step (exit (execOf spec step w)) /\
   FlushedOnEveryPath k spec step w /\
   (exists s,
       output w' = output w +:+ s /\
       Interleaved (streamOf Stdout (chunks (execOf spec step w)))
                   (streamOf Stderr (chunks (execOf spec step w))) s) /\
   String.length (output w') =
     (String.length (output w) + written (chunks (execOf spec step w)))%nat) /\
  (forall e, roundTripper (config k) = Some e ->
   fst (start k spec step w) = (None, Some e) /\
   since w w' = [{| call := NewExecutorCall (execRequest spec step);
                    answer := Some e |}] /\
   output w' = output w).
Proof.
  cbv zeta. split.
  - intros Hrt. destruct (start_run k spec step w Hrt) as (_ & _ & Hj & Hl).
    assert (Hs : since w (snd (start k spec step w)) =
                 attached spec step (exit (execOf spec step w)))
      by now apply since_app.
    unfold FlushedOnEveryPath. cbv zeta. rewrite Hs.
    split_and!; try done; try (unfold attached; set_solver).
    now apply start_interleaves.
  - intros e He. rewrite (start_no_executor k spec step w e He). cbn [fst snd].
    split_and!; try reflexivity. now apply since_app.
Qed.

Lemma start_flushes_after_exit_137 :
  let K := Platform.kube Scenario.feed Scenario.exited137
                         {| roundTripper := None |} in
  let w : World K := {| remote := ∅; output := ""; journal := [] |} in
  roundTripper (config K) = None /\
  since w (snd (start K Scenario.spec Scenario.step w)) =
    attached Scenario.spec Scenario.step
      (Some (CodeExitError "command terminated with exit code 137" 137)) /\
  FlushedOnEveryPath K Scenario.spec Scenario.step w /\
  (exists s,
      output (snd (start K Scenario.spec Scenario.step w)) = "" +:+ s /\
      Interleaved "partial" "" s) /\
  String.length (output (snd (start K Scenario.spec Scenario.step w))) = 7%nat.
Proof.
  cbv zeta. split; [reflexivity|].
  destruct (start_flushes_after_the_stream
              (Platform.kube Scenario.feed Scenario.exited137
                             {| roundTripper := None |})
              Scenario.spec Scenario.step
              {| remote := ∅; output := ""; journal := [] |})
    as (Hok & _).
  exact (Hok eq_refl).
Defined.

(** C9. [Run] attaches to the container only after the readiness wait
    returned nil: the wait itself never builds an executor nor streams;
    when it returns an error, [Run] returns no state and that error, and
    its journal holds no executor and no stream call; when it returns nil,
    [Run] goes on as [start] from the world the wait left. *)
Theorem Run_starts_only_when_ready
        (k : Kubernetes) (spec : Spec) (step : Step) (w : World k) :
  let ready := waitForReady k spec step w in
  Forall (fun x => isExec (call x) = false) (since w (snd ready)) /\
  (forall e, fst ready = Some e ->
     Run k spec step w = ((None, Some e), snd ready) /\
     Forall (fun x => isExec (call x) = false)
            (since w (snd (Run k spec step w)))) /\
  (fst ready = None -> Run k spec step w = start k spec step (snd ready)) /\
  (Exists (fun x => isExec (call x) = true) (since w (snd (Run k spec step w))) ->
   fst ready = None).
Proof.
  cbv zeta.
  pose proof (waitFor_never_attaches k spec (readyCondition spec) w) as Hwait.
  fold (waitForReady k spec step) in Hwait.
  rewrite Run_run.
  destruct (fst (waitForReady k spec step w)) as [e|] eqn:Hr.
  - split_and!; try done.
    + intros e' [= <-]. split; [reflexivity | exact Hwait].
    + intros Hex. apply Exists_exists in Hex as (x & Hx & Hexec).
      rewrite Forall_forall in Hwait. cbn [snd] in Hx.
      assert (Hno : isExec (call x) = false)
        by (apply Hwait, Hx).
      congruence.
  - split_and!; try done.
Qed.

Lemma Run_when_the_pod_fails :
  let K := Platform.kube Scenario.feedFailed Scenario.exited0
                         {| roundTripper := None |} in
  let w : World K := {| remote := ∅; output := ""; journal := [] |} in
  fst (waitForReady K Scenario.spec Scenario.step w) = Some ErrWaitTimeout /\
  Run K Scenario.spec Scenario.step w =
    ((None, Some ErrWaitTimeout), snd (waitForReady K Scenario.spec Scenario.step w)) /\
  Forall (fun x => isExec (call x) = false)
         (since w (snd (Run K Scenario.spec Scenario.step w))).
Proof.
  cbv zeta. split; [reflexivity|].
  destruct (Run_starts_only_when_ready
              (Platform.kube Scenario.feedFailed Scenario.exited0
                             {| roundTripper := None |})
              Scenario.spec Scenario.step
              {| remote := ∅; output := ""; journal := [] |})
    as (_ & Herr & _).
  apply (Herr ErrWaitTimeout). reflexivity.
Defined.

(** C10. [Run] returns either a state and no error, or no state and an
    error: never both, never neither. *)
Theorem Run_returns_state_xor_error
        (k : Kubernetes) (spec : Spec) (step : Step) (w : World k) :
  (exists st, fst (Run k spec step w) = (Some st, None)) \/
  (exists e, fst (Run k spec step w) = (None, Some e)).
Proof.
  rewrite Run_run.
  destruct (fst (waitForReady k spec step w)) as [e|]; [right; now exists e|].
  destruct (roundTripper (config k)) as [e|] eqn:Hrt.
  - right. exists e. now rewrite (start_no_executor k spec step _ e Hrt).
  - destruct (start_run k spec step (snd (waitForReady k spec step w)) Hrt)
      as (-> & _).
    unfold outcome. destruct (exit _) as [e|]; [|left; eauto].
    destruct (exec.ExitStatus e); [left | right]; eauto.
Qed.

(** * Further properties *)

(** *** The readiness wait, case by case *)

Lemma Until_fails (k : Kubernetes)
      (condition : watch.Event -> bool * option error)
      (pre : list watch.Event) (e : watch.Event) (post : list watch.Event)
      (fin : StreamEnd) (lastEvent : option watch.Event) (w : World k)
      (b : bool) (err : error) :
  Forall (fun e => condition e = (false, None)) pre ->
  condition e = (b, Some err) ->
  watchtools.UntilWithoutRetry (pre ++ e :: post) fin lastEvent condition w =
    ((Some e, Some err), noted w (map received (pre ++ [e]))).
Proof.
  revert lastEvent w. induction pre as [|p pre IH]; intros lastEvent w Hall He.
  - cbn [app watchtools.UntilWithoutRetry map]. unfold bind at 1.
    rewrite note_run, He. now destruct b.
  - apply Forall_cons in Hall as [Hp Hall].
    cbn [app watchtools.UntilWithoutRetry]. unfold bind at 1.
    rewrite note_run, Hp. fold (received p).
    rewrite IH by assumption. now rewrite noted_noted.
Qed.

(** A list of events either holds no accepted event, or splits at the
    first one. *)
Lemma first_accepted (spec : Spec) (l : list watch.Event) :
  Forall (fun e => ~ accepted spec e) l \/
  exists pre e post, l = pre ++ e :: post /\
                     Forall (fun e => ~ accepted spec e) pre /\
                     accepted spec e.
Proof.
  induction l as [|e l IH]; [left; constructor|].
  destruct (fst (readyCondition spec e)) eqn:He.
  - right. exists [], e, l. split_and!; [reflexivity | constructor |].
    now apply readyCondition_accepted.
  - assert (Hno : ~ accepted spec e).
    { intros Ha. apply readyCondition_accepted in Ha. congruence. }
    destruct IH as [IH | (pre & e' & post & -> & Hpre & He')].
    + left. now constructor.
    + right. exists (e :: pre), e', post. split_and!; try done.
      now constructor.
Qed.

(** X1. [waitFor] fails before reading the watch when the cache cannot
    sync or when the lookup of the workload in the cache fails: the error
    is the sync error, or the error of the lookup, and no event is
    received, whatever the condition. *)
Theorem waitFor_fails_before_watching
        (k : Kubernetes) (spec : Spec)
        (condition : watch.Event -> bool * option error) (w : World k) :
  (synced (feedOf spec w) = false ->
   waitFor k spec condition w = (Some ErrCacheSync, noted w [listed spec])) /\
  (forall o b e,
      synced (feedOf spec w) = true ->
      Get (store (feedOf spec w)) (workloadKey spec) = (o, b, Some e) ->
      waitFor k spec condition w = (Some e, noted w [listed spec])).
Proof.
  split.
  - intros Hs. rewrite waitFor_run. cbv zeta. now rewrite Hs.
  - intros o b e Hs Hget. rewrite waitFor_run. cbv zeta. rewrite Hs. cbn [negb].
    unfold preconditionFunc. fold (workloadKey spec). now rewrite Hget.
Qed.

Lemma waitFor_unsynced_and_broken_cache :
  waitFor (Cases.on Cases.feedUnsynced Scenario.exited0) Scenario.spec
          (readyCondition Scenario.spec)
          (Cases.empty Cases.feedUnsynced Scenario.exited0) =
    (Some ErrCacheSync,
     noted (Cases.empty Cases.feedUnsynced Scenario.exited0)
           [listed Scenario.spec]) /\
  waitFor (Cases.on Cases.feedBroken Scenario.exited0) Scenario.spec
          (readyCondition Scenario.spec)
          (Cases.empty Cases.feedBroken Scenario.exited0) =
    (Some (TransportError "bad key"),
     noted (Cases.empty Cases.feedBroken Scenario.exited0)
           [listed Scenario.spec]).
Proof.
  split.
  - apply (waitFor_fails_before_watching
             (Cases.on Cases.feedUnsynced Scenario.exited0) Scenario.spec
             (readyCondition Scenario.spec)
             (Cases.empty Cases.feedUnsynced Scenario.exited0)).
    reflexivity.
  - apply (proj2 (waitFor_fails_before_watching
             (Cases.on Cases.feedBroken Scenario.exited0) Scenario.spec
             (readyCondition Scenario.spec)
             (Cases.empty Cases.feedBroken Scenario.exited0))
             None false (TransportError "bad key")); reflexivity.
Defined.

(** X2. When the cache has synced and holds the workload, [waitForReady]
    returns nil if and only if some event of the watch is accepted; if
    none is, it returns the error the stream ends with, after reading
    every event. *)
Theorem waitForReady_nil_iff_accepted
        (k : Kubernetes) (spec : Spec) (step : Step) (w : World k) :
  synced (feedOf spec w) = true ->
  (exists o, Get (store (feedOf spec w)) (workloadKey spec) = (o, true, None)) ->
  (fst (waitForReady k spec step w) = None <->
   Exists (accepted spec) (events (feedOf spec w))) /\
  (fst (waitForReady k spec step w) <> None ->
   waitForReady k spec step w =
     (Some (endError (ending (feedOf spec w))),
      noted w (listed spec :: map received (events (feedOf spec w))))).
Proof.
  intros Hs [o Hget].
  assert (Hpre : preconditionFunc spec (store (feedOf spec w)) = (false, None)).
  { unfold preconditionFunc. fold (workloadKey spec). now rewrite Hget. }
  unfold waitForReady. rewrite waitFor_run. cbv zeta.
  rewrite Hs, Hpre. cbn [negb].
  destruct (first_accepted spec (events (feedOf spec w)))
    as [Hall | (pre & e & post & Hev & Hall & He)].
  - destruct (Until_all_rejected k (readyCondition spec)
                (events (feedOf spec w)) (ending (feedOf spec w)) None
                (noted w [listed spec])) as [ev Hev].
    { eapply Forall_impl; [exact Hall|]. apply readyCondition_rejected. }
    rewrite Hev. cbn [fst snd]. rewrite noted_noted. split; [|reflexivity].
    split; [discriminate|].
    intros Hex. apply Exists_exists in Hex as (e & Hin & He).
    rewrite Forall_forall in Hall. now destruct (Hall e Hin).
  - rewrite Hev, Until_accepts.
    + cbn [fst snd]. split; [|congruence].
      split; [|reflexivity]. intros _.
      apply Exists_app. right. now apply Exists_cons_hd.
    + eapply Forall_impl; [exact Hall|]. apply readyCondition_rejected.
    + pose proof (readyCondition_no_error spec e) as Herr.
      apply readyCondition_accepted in He.
      destruct (readyCondition spec e); cbn in *; congruence.
Qed.

Lemma waitForReady_pod_fails_first :
  let K := Cases.on Scenario.feedFailed Scenario.exited0 in
  let w := Cases.empty Scenario.feedFailed Scenario.exited0 in
  ~ Exists (accepted Scenario.spec) (events (feedOf Scenario.spec w)) /\
  fst (waitForReady K Scenario.spec Scenario.step w) = Some ErrWaitTimeout.
Proof.
  cbv zeta.
  destruct (waitForReady_nil_iff_accepted
              (Cases.on Scenario.feedFailed Scenario.exited0)
              Scenario.spec Scenario.step
              (Cases.empty Scenario.feedFailed Scenario.exited0))
    as [Hiff Herr].
  - reflexivity.
  - eexists. reflexivity.
  - split; [|reflexivity].
    intros Hex. apply Hiff in Hex. discriminate Hex.
Defined.

(** X3. With the workload in the synced cache, the first event on which
    the condition given to [waitFor] returns an error ends the wait with
    that error; the events before it were turned down and read, the events
    after it are not read. *)
Theorem waitFor_returns_the_condition_error
        (k : Kubernetes) (spec : Spec)
        (condition : watch.Event -> bool * option error) (w : World k)
        (pre : list watch.Event) (e : watch.Event) (post : list watch.Event)
        (b : bool) (err : error) :
  synced (feedOf spec w) = true ->
  (exists o, Get (store (feedOf spec w)) (workloadKey spec) = (o, true, None)) ->
  events (feedOf spec w) = pre ++ e :: post ->
  Forall (fun e => condition e = (false, None)) pre ->
  condition e = (b, Some err) ->
  waitFor k spec condition w =
    (Some err, noted w (listed spec :: map received (pre ++ [e]))).
Proof.
  intros Hs [o Hget] Hev Hall He.
  rewrite waitFor_run. cbv zeta. rewrite Hs. cbn [negb].
  unfold preconditionFunc. fold (workloadKey spec). rewrite Hget. cbn [negb].
  rewrite Hev, (Until_fails k condition pre e post _ _ _ b err Hall He).
  cbn [fst snd]. now rewrite noted_noted.
Qed.

Lemma waitFor_condition_fails_on_deleted :
  let K := Cases.on Scenario.feedFailed Scenario.exited0 in
  let w := Cases.empty Scenario.feedFailed Scenario.exited0 in
  waitFor K Scenario.spec Cases.failOnDeleted w =
    (Some (TransportError "pod deleted"),
     noted w (listed Scenario.spec ::
              map received (events (feedOf Scenario.spec w)))).
Proof.
  cbv zeta.
  apply (waitFor_returns_the_condition_error
           (Cases.on Scenario.feedFailed Scenario.exited0) Scenario.spec
           Cases.failOnDeleted
           (Cases.empty Scenario.feedFailed Scenario.exited0)
           [ {| watch.Type_ := watch.Added;
                watch.Object_ := Scenario.pod v1.PodPending |};
             {| watch.Type_ := watch.Modified;
                watch.Object_ := Scenario.pod v1.PodFailed |} ]
           {| watch.Type_ := watch.Deleted;
              watch.Object_ := Scenario.pod v1.PodRunning |} []
           false (TransportError "pod deleted")).
  - reflexivity.
  - eexists. reflexivity.
  - reflexivity.
  - repeat constructor.
  - reflexivity.
Defined.

(** *** What [Run] and [start] return *)

Section OutputFacts.

Variable k : Kubernetes.

(** A write to a sink moves complete lines to the output and keeps the
    rest pending: output and pending bytes together grow by the chunk. *)
Lemma Write_keeps (wr : nicelog.Writer) (p : string) (w : World k) :
  output (snd (nicelog.Write wr p w))
    +:+ nicelog.pending (fst (nicelog.Write wr p w)) =
  (output w +:+ nicelog.pending wr) +:+ p.
Proof.
  unfold nicelog.Write.
  pose proof (lines_cat (nicelog.pending wr +:+ p)) as Hl.
  destruct (nicelog.lines (nicelog.pending wr +:+ p)) as [full rest].
  cbn in *. now rewrite !append_assoc, Hl.
Qed.

Lemma copy_stdout_only (cs : list (Fd * string)) (out err : nicelog.Writer)
      (w : World k) :
  Forall (fun c => fst c = Stdout) cs ->
  snd (fst (remotecommand.copy cs out err w)) = err /\
  output (snd (remotecommand.copy cs out err w))
    +:+ nicelog.pending (fst (fst (remotecommand.copy cs out err w))) =
  (output w +:+ nicelog.pending out) +:+ joined cs.
Proof.
  revert out w. induction cs as [|[fd p] cs IH]; intros out w Hall.
  - cbn. now rewrite append_empty.
  - apply Forall_cons in Hall as [Hfd Hall]. cbn in Hfd. subst fd.
    rewrite copy_stdout.
    destruct (IH (fst (nicelog.Write out p w)) (snd (nicelog.Write out p w))
                 Hall) as [He Ho].
    split; [exact He|]. rewrite Ho, Write_keeps.
    cbn [joined fold_right snd]. fold (joined cs). now rewrite append_assoc.
Qed.

Lemma copy_stderr_only (cs : list (Fd * string)) (out err : nicelog.Writer)
      (w : World k) :
  Forall (fun c => fst c = Stderr) cs ->
  fst (fst (remotecommand.copy cs out err w)) = out /\
  output (snd (remotecommand.copy cs out err w))
    +:+ nicelog.pending (snd (fst (remotecommand.copy cs out err w))) =
  (output w +:+ nicelog.pending err) +:+ joined cs.
Proof.
  revert err w. induction cs as [|[fd p] cs IH]; intros err w Hall.
  - cbn. now rewrite append_empty.
  - apply Forall_cons in Hall as [Hfd Hall]. cbn in Hfd. subst fd.
    rewrite copy_stderr.
    destruct (IH (fst (nicelog.Write err p w)) (snd (nicelog.Write err p w))
                 Hall) as [He Ho].
    split; [exact He|]. rewrite Ho, Write_keeps.
    cbn [joined fold_right snd]. fold (joined cs). now rewrite append_assoc.
Qed.

End OutputFacts.

(** X5. [Run] returns a state only when the wait returned nil, the
    executor was built and the stream returned nil or an exit-status
    error.  The state is always exited and never OOM-killed; its exit code
    is 0 after a nil stream error and the status of the error otherwise,
    also when that status is 0. *)
Theorem Run_state_is_exited_and_not_oom_killed
        (k : Kubernetes) (spec : Spec) (step : Step) (w : World k) (st : State) :
  fst (fst (Run k spec step w)) = Some st ->
  let ready := waitForReady k spec step w in
  let x := exit (execOf spec step (snd ready)) in
  Exited st = true /\ OOMKilled st = false /\
  snd (fst (Run k spec step w)) = None /\
  fst ready = None /\
  roundTripper (config k) = None /\
  ((x = None /\ ExitCode st = 0) \/
   (exists msg, x = Some (CodeExitError msg (ExitCode st)))).
Proof.
  cbv zeta. rewrite Run_run.
  destruct (fst (waitForReady k spec step w)) as [e|]; [discriminate|].
  destruct (roundTripper (config k)) as [e|] eqn:Hrt.
  - rewrite (start_no_executor k spec step _ e Hrt). discriminate.
  - destruct (start_run k spec step (snd (waitForReady k spec step w)) Hrt)
      as (Hres & _).
    destruct (start k spec step (snd (waitForReady k spec step w)))
      as [[s e] w']. cbn [fst snd] in *.
    intros ->. unfold outcome in Hres.
    destruct (exit _) as [[]|]; cbn in Hres; try discriminate;
      injection Hres as Hst He; subst st e; cbn; split_and!; eauto.
Qed.

Lemma Run_state_in_the_scenario :
  fst (fst (Run Scenario.K Scenario.spec Scenario.step Scenario.w0)) =
    Some {| Exited := true; ExitCode := 0; OOMKilled := false |} /\
  snd (fst (Run Scenario.K Scenario.spec Scenario.step Scenario.w0)) = None /\
  fst (waitForReady Scenario.K Scenario.spec Scenario.step Scenario.w0) = None.
Proof.
  split; [reflexivity|].
  destruct (Run_state_is_exited_and_not_oom_killed
              Scenario.K Scenario.spec Scenario.step Scenario.w0
              {| Exited := true; ExitCode := 0; OOMKilled := false |} eq_refl)
    as (_ & _ & Herr & Hready & _).
  split; assumption.
Defined.

(** X6. When the remote process writes to one of its two streams only
    and the executor is built, [start] leaves in the caller's writer what
    was there followed by exactly what the process wrote, the last partial
    line included, whatever the stream call returns. *)
Theorem start_delivers_a_single_stream
        (k : Kubernetes) (spec : Spec) (step : Step) (w : World k) (fd : Fd) :
  roundTripper (config k) = None ->
  Forall (fun c => fst c = fd) (chunks (execOf spec step w)) ->
  output (snd (start k spec step w)) =
    output w +:+ joined (chunks (execOf spec step w)).
Proof.
  intros Hrt Hall. rewrite start_attached by assumption. cbv zeta.
  cbn [snd output]. destruct fd.
  - destruct (copy_stdout_only k (chunks (execOf spec step w))
                (nicelog.New Stdout) (nicelog.New Stderr)
                (noted w [{| call := NewExecutorCall (execRequest spec step);
                             answer := None |}]) Hall) as [He Ho].
    rewrite He, Ho. cbn [nicelog.New nicelog.pending noted output].
    now rewrite !append_empty.
  - destruct (copy_stderr_only k (chunks (execOf spec step w))
                (nicelog.New Stdout) (nicelog.New Stderr)
                (noted w [{| call := NewExecutorCall (execRequest spec step);
                             answer := None |}]) Hall) as [He Ho].
    rewrite He. cbn [nicelog.New nicelog.pending].
    rewrite append_empty, Ho. cbn [nicelog.New nicelog.pending noted output].
    now rewrite !append_empty.
Qed.

Lemma start_delivers_stdout :
  let K := Cases.on Scenario.feed Cases.stdoutOnly in
  let w := Cases.empty Scenario.feed Cases.stdoutOnly in
  roundTripper (config K) = None /\
  Forall (fun c => fst c = Stdout) (chunks (execOf Scenario.spec Scenario.step w)) /\
  output (snd (start K Scenario.spec Scenario.step w)) =
    "a" +:+ String nicelog.newline "bc".
Proof.
  cbv zeta. split; [reflexivity|]. split; [repeat constructor|].
  apply (start_delivers_a_single_stream
           (Cases.on Scenario.feed Cases.stdoutOnly) Scenario.spec Scenario.step
           (Cases.empty Scenario.feed Cases.stdoutOnly) Stdout).
  - reflexivity.
  - repeat constructor.
Defined.

(** *** Provisioning and teardown together *)

Lemma deletionKeys_calls (t : list Entry) :
  deletionKeys t = deletionTargets (map call t).
Proof.
  unfold deletionKeys, deletionTargets.
  induction t as [|x t IH]; [reflexivity|].
  cbn [flat_map map]. now rewrite IH.
Qed.

Lemma createdKeys_calls (t : list Entry) (key : Platform.Key) :
  key ∈ createdKeys t -> key ∈ creationTargets (map call t).
Proof.
  unfold createdKeys, creationTargets.
  induction t as [|x t IH]; [easy|].
  cbn [flat_map map]. rewrite !elem_of_app. intros [H|H]; [left | right; now apply IH].
  destruct (call x); try now apply elem_of_nil in H.
  destruct (answer x); [now apply elem_of_nil in H | exact H].
Qed.

Lemma creationTargets_take (n : nat) (cs : list Call) (key : Platform.Key) :
  key ∈ creationTargets (take n cs) -> key ∈ creationTargets cs.
Proof.
  unfold creationTargets.
  revert n. induction cs as [|c cs IH]; intros [|n]; cbn [take flat_map];
    intros H; try (now apply elem_of_nil in H).
  rewrite elem_of_app in *. destruct H as [H|H]; [now left | right; eauto].
Qed.

(** *** On a platform that keeps its objects *)

Lemma delete_run (r : Resource) (ns name : string)
      (opts : metav1.DeleteOptions) (c : gmap Platform.Key Object) :
  Platform.delete r ns name opts c =
    (match c !! (r, ns, name) with
     | Some _ => None
     | None => Some (StatusError "NotFound" name)
     end, delete (r, ns, name) c).
Proof.
  unfold Platform.delete. destruct (c !! (r, ns, name)) eqn:Hc; [reflexivity|].
  now rewrite delete_id.
Qed.

(** Decide the lookups of a store after deletions. *)
Ltac cleared :=
  rewrite ?lookup_delete; repeat case_decide; try congruence; try reflexivity.

(** X8. On a platform that keeps its objects, Destroy leaves none of the
    objects it asks for in the store, whatever was there before, and it
    touches no other object.  A second Destroy changes nothing more and
    returns the combined error holding one not-found failure for each of
    its deletions, in their order. *)
Theorem Destroy_clears_and_repeats
        (feed : Feed) (x : Exec) (cfg : Config) (spec : Spec)
        (w : World (Platform.kube feed x cfg)) :
  let K := Platform.kube feed x cfg in
  let w1 := snd (Destroy K spec w) in
  let w2 := snd (Destroy K spec w1) in
  let targets := deletionTargets (teardown spec) in
  deletionKeys (since w w1) = targets /\
  (forall key, key ∈ targets ->
               (remote w1 : gmap Platform.Key Object) !! key = None) /\
  (forall key, key ∉ targets ->
               (remote w1 : gmap Platform.Key Object) !! key =
               (remote w : gmap Platform.Key Object) !! key) /\
  (remote w2 : gmap Platform.Key Object) = remote w1 /\
  fst (Destroy K spec w1) =
    Some (MultiError (map (fun key => StatusError "NotFound" (snd key)) targets)).
Proof.
  cbv zeta. set (K := Platform.kube feed x cfg) in *.
  destruct (Destroy_journal K spec w) as (t1 & Hj1 & _ & Hr1 & Hc1 & _).
  destruct (Destroy_journal K spec (snd (Destroy K spec w)))
    as (t2 & Hj2 & Ht2 & Hr2 & Hc2 & Hres).
  rewrite (since_app _ _ _ Hj1), deletionKeys_calls, Hc1, Hres, Hr2.
  apply truthful_conduct in Ht2. rewrite Hc2 in Ht2. rewrite Hc2, Ht2, Hr1, Hc1.
  clear. generalize (remote w). subst K. cbn [Cluster Platform.kube].
  intros c. unfold teardown.
  destruct (PullSecret spec) as [ps|];
    cbn [app conduct replay fold_left perform reply client Delete
         Platform.kube deletionTargets flat_map map snd answer];
    rewrite !delete_run; cbn [fst snd];
    (split; [reflexivity|]); split_and!.
  - intros key Hin.
    repeat (apply elem_of_cons in Hin as [->|Hin]; [now cleared|]).
    now apply elem_of_nil in Hin.
  - intros key Hno. cleared; subst; destruct Hno; set_solver.
  - apply map_eq. intros i. now cleared.
  - cleared.
  - intros key Hin.
    repeat (apply elem_of_cons in Hin as [->|Hin]; [now cleared|]).
    now apply elem_of_nil in Hin.
  - intros key Hno. cleared; subst; destruct Hno; set_solver.
  - apply map_eq. intros i. now cleared.
  - cleared.
Qed.

Lemma Destroy_twice_in_the_scenario :
  let w1 := snd (Destroy Scenario.K Scenario.specPull Scenario.w0) in
  (remote w1 : gmap Platform.Key Object) !! (SecretsResource, "drone", "regcred")
    = None /\
  fst (Destroy Scenario.K Scenario.specPull w1) =
    Some (MultiError [StatusError "NotFound" "regcred";
                      StatusError "NotFound" "build-abc123";
                      StatusError "NotFound" "build-abc123";
                      StatusError "NotFound" "build-abc123"]).
Proof.
  cbv zeta.
  destruct (Destroy_clears_and_repeats
              Scenario.feed Scenario.exited0 {| roundTripper := None |}
              Scenario.specPull Scenario.w0)
    as (_ & Hclear & _ & _ & Hagain).
  split; [|exact Hagain].
  apply Hclear. apply list_elem_of_here.
Defined.

(** The key of the first object Setup creates. *)
Lemma Setup_keeps_its_first_object
      (feed : Feed) (x : Exec) (cfg : Config) (spec : Spec)
      (w : World (Platform.kube feed x cfg)) :
  fst (Setup (Platform.kube feed x cfg) spec w) = None ->
  is_Some ((remote (snd (Setup (Platform.kube feed x cfg) spec w))
            : gmap Platform.Key Object)
           !! (SecretsResource, PodSpec.Namespace (PodSpec spec), firstName spec)).
Proof.
  intros Hok. set (K := Platform.kube feed x cfg) in *.
  destruct (Setup_journal K spec w) as (t1 & _ & Ht1 & Hr1 & _ & Hc1 & _ & Hs1).
  rewrite Hok in Hs1. destruct Hs1 as [Hlen Hs1].
  rewrite Hlen, firstn_all in Hc1.
  apply truthful_conduct in Ht1. rewrite Hc1 in Ht1. rewrite Hr1, Hc1.
  subst t1. clear Hr1 Hc1 Hlen Hok.
  revert Hs1. generalize (remote w). subst K. cbn [Cluster Platform.kube].
  intros c Hs. unfold provisioning, firstName in *.
  destruct (PullSecret spec) as [ps|] eqn:Hps;
    cbn [app conduct replay fold_left perform reply client Create
         Platform.kube] in *.
  - apply Forall_cons in Hs as [H0 Hs]. apply create_accepts in H0 as [L0 E0].
    rewrite E0 in *. cbn [fst snd] in *.
    apply Forall_cons in Hs as [H1 Hs]. apply create_accepts in H1 as [L1 E1].
    rewrite E1 in *. cbn [fst snd] in *.
    apply Forall_cons in Hs as [H2 _]. apply create_accepts in H2 as [L2 E2].
    rewrite E2. cbn [fst snd].
    unfold toDockerConfigSecret in *. rewrite Hps in *.
    cbn [Platform.objectName toSecret toPod v1.SecretMeta v1.ObjectMeta
         metav1.Name] in *.
    apply lookup_insert_None in L1 as [L1 Hne].
    lookups. eauto.
  - apply Forall_cons in Hs as [H1 Hs]. apply create_accepts in H1 as [L1 E1].
    rewrite E1 in *. cbn [fst snd] in *.
    apply Forall_cons in Hs as [H2 _]. apply create_accepts in H2 as [L2 E2].
    rewrite E2. cbn [fst snd].
    cbn [Platform.objectName toSecret toPod v1.SecretMeta v1.ObjectMeta
         metav1.Name] in *.
    lookups. eauto.
Qed.

(** X9. On a platform that keeps its objects, Setup is not idempotent:
    after a Setup that succeeded, a second Setup of the same Spec is
    refused at its first creation, the object being there already; it
    makes that one call and leaves the store as it was. *)
Theorem Setup_again_is_refused
        (feed : Feed) (x : Exec) (cfg : Config) (spec : Spec)
        (w : World (Platform.kube feed x cfg)) :
  let K := Platform.kube feed x cfg in
  let w1 := snd (Setup K spec w) in
  fst (Setup K spec w) = None ->
  fst (Setup K spec w1) = Some (StatusError "AlreadyExists" (firstName spec)) /\
  (remote (snd (Setup K spec w1)) : gmap Platform.Key Object) = remote w1 /\
  map call (since w1 (snd (Setup K spec w1))) = take 1 (provisioning spec).
Proof.
  cbv zeta. intros Hok.
  destruct (Setup_keeps_its_first_object feed x cfg spec w Hok) as [o Ho].
  set (w1 := snd (Setup (Platform.kube feed x cfg) spec w)) in *.
  clearbody w1. clear Hok.
  unfold Setup, provisioning, firstName, bind, ret in *.
  destruct (PullSecret spec) as [ps|] eqn:Hps;
    rewrite createObject_run;
    cbn [fst snd remote output journal client Create Platform.kube];
    unfold Platform.create, toDockerConfigSecret; rewrite ?Hps;
    cbn [Platform.objectName toSecret v1.SecretMeta metav1.Name];
    rewrite Ho; cbn [fst snd remote journal app take];
    (split_and!; [reflexivity | reflexivity |]);
    unfold since; cbn [journal]; now rewrite drop_app_length.
Qed.

Lemma Setup_again_in_the_scenario :
  let w1 := snd (Setup Scenario.K Scenario.specPull Scenario.w0) in
  fst (Setup Scenario.K Scenario.specPull Scenario.w0) = None /\
  fst (Setup Scenario.K Scenario.specPull w1) =
    Some (StatusError "AlreadyExists" "regcred") /\
  map call (since w1 (snd (Setup Scenario.K Scenario.specPull w1))) =
    take 1 (provisioning Scenario.specPull).
Proof.
  cbv zeta. split; [vm_compute; reflexivity|].
  destruct (Setup_again_is_refused
              Scenario.feed Scenario.exited0 {| roundTripper := None |}
              Scenario.specPull Scenario.w0) as (Herr & _ & Hcalls).
  - vm_compute. reflexivity.
  - split; [exact Herr | exact Hcalls].
Defined.

(** *** Teardown after any Setup *)

Lemma create_keeps (r : Resource) (ns : string) (o : Object)
      (c : gmap Platform.Key Object) (key : Platform.Key) :
  is_Some (c !! key) -> is_Some (snd (Platform.create r ns o c) !! key).
Proof.
  intros Hk. unfold Platform.create.
  destruct (c !! (r, ns, Platform.objectName o)); cbn [snd]; [exact Hk|].
  rewrite lookup_insert. case_decide; eauto.
Qed.

Lemma creations_keep (feed : Feed) (x : Exec) (cfg : Config)
      (cs : list Call) (c : gmap Platform.Key Object) (key : Platform.Key) :
  Forall (fun call => isCreate call = true) cs ->
  is_Some (c !! key) ->
  is_Some ((replay (Platform.kube feed x cfg) cs c : gmap Platform.Key Object)
           !! key).
Proof.
  intros Hcs. revert c. induction Hcs as [|call cs Hc Hcs IH]; intros c Hk;
    [exact Hk|].
  destruct call; try discriminate Hc.
  cbn [replay fold_left perform client Create Platform.kube].
  apply IH. now apply create_keeps.
Qed.

(** What a run of creations created is in the store at its end. *)
Lemma created_is_stored (feed : Feed) (x : Exec) (cfg : Config)
      (cs : list Call) (c : gmap Platform.Key Object) (key : Platform.Key) :
  Forall (fun call => isCreate call = true) cs ->
  key ∈ createdKeys (conduct (Platform.kube feed x cfg) c cs) ->
  is_Some ((replay (Platform.kube feed x cfg) cs c : gmap Platform.Key Object)
           !! key).
Proof.
  intros Hcs. revert c. induction Hcs as [|call cs Hc Hcs IH]; intros c Hin.
  - now apply elem_of_nil in Hin.
  - destruct call as [r ns o| | | | | |]; try discriminate Hc.
    unfold createdKeys in Hin. cbn [conduct flat_map call answer] in Hin.
    fold (createdKeys (conduct (Platform.kube feed x cfg)
            (perform (Platform.kube feed x cfg) c (CreateCall r ns o)) cs)) in Hin.
    apply elem_of_app in Hin as [Hin|Hin].
    + cbn [reply client Create Platform.kube] in Hin.
      match type of Hin with
      | context [match ?a with _ => _ end] => destruct a eqn:Hans
      end; [now apply elem_of_nil in Hin|].
      apply list_elem_of_singleton in Hin. subst key.
      apply create_accepts in Hans as [_ Hrun].
      cbn [replay fold_left perform client Create Platform.kube].
      apply (creations_keep feed x cfg); [exact Hcs|].
      rewrite Hrun. cbn [snd]. rewrite lookup_insert_eq. eauto.
    + cbn [replay fold_left]. now apply IH.
Qed.

Lemma Destroy_leaves_no_target
      (feed : Feed) (x : Exec) (cfg : Config) (spec : Spec)
      (w : World (Platform.kube feed x cfg)) (key : Platform.Key) :
  key ∈ deletionTargets (teardown spec) ->
  (remote (snd (Destroy (Platform.kube feed x cfg) spec w))
   : gmap Platform.Key Object) !! key = None.
Proof.
  set (K := Platform.kube feed x cfg) in *.
  destruct (Destroy_journal K spec w) as (t1 & _ & _ & Hr1 & Hc1 & _).
  rewrite Hr1, Hc1. clear. generalize (remote w). subst K.
  cbn [Cluster Platform.kube]. intros c. unfold teardown.
  destruct (PullSecret spec) as [ps|];
    cbn [app replay fold_left perform client Delete Platform.kube
         deletionTargets flat_map];
    rewrite !delete_run; cbn [fst snd]; intros Hin;
    repeat (apply elem_of_cons in Hin as [->|Hin]; [now cleared|]);
    now apply elem_of_nil in Hin.
Qed.

(** X7. On a platform that keeps its objects, every object a Setup
    created, also a Setup that failed half way, is in the store when Setup
    returns, is among the objects Destroy then asks the platform to delete,
    and is gone from the store when Destroy returns. *)
Theorem Destroy_removes_what_Setup_created
        (feed : Feed) (x : Exec) (cfg : Config) (spec : Spec)
        (w : World (Platform.kube feed x cfg)) (key : Platform.Key) :
  let K := Platform.kube feed x cfg in
  let w1 := snd (Setup K spec w) in
  let w2 := snd (Destroy K spec w1) in
  key ∈ createdKeys (since w w1) ->
  is_Some ((remote w1 : gmap Platform.Key Object) !! key) /\
  key ∈ deletionKeys (since w1 w2) /\
  truthful K (remote w1) (since w1 w2) /\
  (remote w2 : gmap Platform.Key Object) !! key = None.
Proof.
  cbv zeta. set (K := Platform.kube feed x cfg).
  destruct (Setup_journal K spec w) as (t & Hj & Ht & Hr & Hcr & Hc & _).
  destruct (Destroy_journal K spec (snd (Setup K spec w)))
    as (t' & Hj' & Ht' & _ & Hc' & _).
  rewrite (since_app _ _ _ Hj), (since_app _ _ _ Hj').
  intros Hin.
  assert (Htarget : key ∈ deletionTargets (teardown spec)).
  { apply createdKeys_calls in Hin. rewrite Hc in Hin.
    apply creationTargets_take in Hin.
    unfold provisioning, teardown, toDockerConfigSecret in *.
    destruct (PullSecret spec) as [ps|]; cbn in *;
      repeat (apply elem_of_cons in Hin as [->|Hin]; [set_solver|]);
      now apply elem_of_nil in Hin. }
  split_and!.
  - rewrite Hr. apply (created_is_stored feed x cfg).
    + apply Forall_forall. intros c Hcin.
      apply list_elem_of_fmap in Hcin as (e & -> & He).
      rewrite Forall_forall in Hcr. now apply Hcr.
    + apply truthful_conduct in Ht.
      exact (eq_rect _ (fun l => key ∈ createdKeys l) Hin _ Ht).
  - now rewrite deletionKeys_calls, Hc'.
  - exact Ht'.
  - now apply Destroy_leaves_no_target.
Qed.

Lemma Destroy_removes_after_a_refused_pod :
  let K := Cases.on Scenario.feed Scenario.exited0 in
  let w : World K :=
    {| remote := {[ (PodsResource, "drone", "build-abc123") :=
                      Scenario.pod v1.PodRunning ]};
       output := ""; journal := [] |} in
  let w1 := snd (Setup K Scenario.specPull w) in
  let w2 := snd (Destroy K Scenario.specPull w1) in
  fst (Setup K Scenario.specPull w) =
    Some (StatusError "AlreadyExists" "build-abc123") /\
  (SecretsResource, "drone", "regcred") ∈ createdKeys (since w w1) /\
  is_Some ((remote w1 : gmap Platform.Key Object)
           !! (SecretsResource, "drone", "regcred")) /\
  (remote w2 : gmap Platform.Key Object)
    !! (SecretsResource, "drone", "regcred") = None.
Proof.
  cbv zeta. split; [vm_compute; reflexivity|].
  assert (Hin : (SecretsResource, "drone", "regcred") ∈
                createdKeys
                  (since {| remote := {[ (PodsResource, "drone", "build-abc123") :=
                                           Scenario.pod v1.PodRunning ]};
                            output := ""; journal := [] |}
                         (snd (Setup (Cases.on Scenario.feed Scenario.exited0)
                                 Scenario.specPull
                                 {| remote := {[ (PodsResource, "drone", "build-abc123") :=
                                                   Scenario.pod v1.PodRunning ]};
                                    output := ""; journal := [] |})))).
  { vm_compute. apply list_elem_of_here. }
  split; [exact Hin|].
  destruct (Destroy_removes_what_Setup_created
              Scenario.feed Scenario.exited0 {| roundTripper := None |}
              Scenario.specPull
              {| remote := {[ (PodsResource, "drone", "build-abc123") :=
                                Scenario.pod v1.PodRunning ]};
                 output := ""; journal := [] |}
              (SecretsResource, "drone", "regcred") Hin)
    as (Hstored & _ & _ & Hgone).
  split; assumption.
Defined.
